(** * Face-recognition access loop of the ESP32-CAM firmware

    A shallow embedding of [esp32cam-pio/src/main.cpp]: the enrollment
    helper [loadAuthorizedFace], the telemetry and alert helpers
    [sendToThingSpeak] and [sendEmailAlert], and the body of [loop].

    The firmware is a single-threaded sequence of calls into the camera
    driver, the face engine, the SD card, the LCD, the mail client and
    the HTTP client.  The model keeps the two globals the code mutates
    ([authorized_face], [attemptCount]) in an explicit state, records
    every call the code makes as an event of a trace, and takes what
    the outside world answers to each call from an environment.  The
    file models the default build, in which the four feature macros
    [FEAT_HTTP], [FEAT_EMAIL], [FEAT_LCD] and [FEAT_SD] are all 1.  Of
    [setup] only the call of [loadAuthorizedFace] matters to the globals:
    it is made once, from their initial values. *)

From Stdlib Require Import ZArith QArith List Bool Lia String.
Import ListNotations.

Local Open Scope string_scope.
Local Open Scope list_scope.
Local Open Scope Z_scope.

(** ** C integers *)

(** [attemptCount], [accessStatus] and [intruderAlert] are C [int]s, 32
    bits wide on the target.  Signed overflow is undefined in C++; the
    model gives it the two's-complement result the hardware produces.
    No reachable run gets there: the counter stays below [MAX_ATTEMPTS]
    between cycles. *)
Module Int.

Definition min_int : Z := - 2 ^ 31.
Definition max_int : Z := 2 ^ 31 - 1.

Definition wrap (z : Z) : Z := (z + 2 ^ 31) mod 2 ^ 32 - 2 ^ 31.

(** [x++] on an [int] variable holding [x]. *)
Definition incr (x : Z) : Z := wrap (x + 1).

End Int.

(** ** Floats *)

(** [float] is the IEEE 754 binary32 format of the target: a NaN, the
    two infinities, the two zeros, and the finite numbers
    [(-1)^s * m * 2^e].  The program does no arithmetic on floats: it
    passes [dummyLat] and [dummyLng] on, and compares the similarity
    score with the literal [0.6f]. *)
Inductive float : Type :=
| F_nan
| F_inf (negative : bool)
| F_zero (negative : bool)
| F_finite (negative : bool) (m : positive) (e : Z).

(** A binary32 significand has 24 bits, and its exponent runs from that
    of the subnormals to that of the largest finite float. *)
Definition binary32 (x : float) : bool :=
  match x with
  | F_finite _ m e => (Z.pos m <? 2 ^ 24) && (-149 <=? e) && (e <=? 104)
  | _ => true
  end.

(** The rational [(-1)^s * m * 2^e]. *)
Definition finite_value (negative : bool) (m : positive) (e : Z) : Q :=
  let n := if negative then Z.neg m else Z.pos m in
  match e with
  | Z.neg p => n # 2 ^ p
  | _ => (n * 2 ^ e) # 1
  end.

(** The rational a zero or a finite float denotes. *)
Definition float_Q (x : float) : Q :=
  match x with
  | F_finite negative m e => finite_value negative m e
  | _ => 0
  end.

(** The IEEE 754 comparison: a NaN is unordered with everything, the
    zeros are equal, the infinities lie outside the finite numbers. *)
Definition float_compare (x y : float) : option comparison :=
  match x, y with
  | F_nan, _ | _, F_nan => None
  | F_inf true, F_inf true | F_inf false, F_inf false => Some Eq
  | F_inf true, _ | _, F_inf false => Some Lt
  | F_inf false, _ | _, F_inf true => Some Gt
  | _, _ => Some (float_Q x ?= float_Q y)%Q
  end.

(** [x > y] on floats. *)
Definition float_gt (x y : float) : bool :=
  match float_compare x y with
  | Some Gt => true
  | _ => false
  end.

(** [x <= y] on floats. *)
Definition float_le (x y : float) : bool :=
  match float_compare x y with
  | Some Lt | Some Eq => true
  | _ => false
  end.

(** The literal [0.6f] of line 234: the binary32 nearest to 0.6, which
    is [0x3F19999A], that is 10066330 * 2^-24. *)
Definition MATCH_THRESHOLD : float := F_finite false 10066330 (-24).

(** The two scores of the example of the specification: [0.55f] is
    [0x3F0CCCCD] and [0.9f] is [0x3F666666]. *)
Definition score_0_55 : float := F_finite false 9227469 (-24).
Definition score_0_9 : float := F_finite false 15099494 (-24).

(** ** Constants of the program *)

Definition BUZZER_PIN : Z := 4.
Definition MAX_ATTEMPTS : Z := 3.

(** [-26.2041f] is [0xC1D1A1FF] and [28.0473f] is [0x41E060DF]. *)
Definition dummyLat : float := F_finite true 13738495 (-19).
Definition dummyLng : float := F_finite false 14704863 (-19).

(** [secrets.h] *)
Definition THINGSPEAK_API_KEY := "YOUR_THINGSPEAK_WRITE_API_KEY".
Definition SMTP_HOST := "smtp.gmail.com".
Definition SMTP_PORT : Z := 587.
Definition SENDER_EMAIL := "yourgmail@gmail.com".
Definition SENDER_PASSWORD := "your-16-char-app-password".
Definition RECEIVER_EMAIL := "alert@example.com".
Definition DASHBOARD_LINK := "https://thingspeak.com/channels/000000".

(** ** Data of the collaborators *)

Inductive pixformat_t : Type :=
| PIXFORMAT_RGB565
| PIXFORMAT_JPEG.

(** The fields of [camera_fb_t] that [loop] reads. *)
Record camera_fb_t : Type := {
  buf : list Z;
  len : Z;
  width : Z;
  height : Z;
  format : pixformat_t
}.

(** An open [File] on the SD card. *)
Record File : Type := {
  file_size : Z;
  file_bytes : list Z
}.

(** [WiFi.status()] *)
Inductive wl_status_t : Type :=
| WL_NO_SHIELD
| WL_IDLE_STATUS
| WL_NO_SSID_AVAIL
| WL_SCAN_COMPLETED
| WL_CONNECTED
| WL_CONNECT_FAILED
| WL_CONNECTION_LOST
| WL_DISCONNECTED.

Definition wl_status_eqb (a b : wl_status_t) : bool :=
  match a, b with
  | WL_NO_SHIELD, WL_NO_SHIELD
  | WL_IDLE_STATUS, WL_IDLE_STATUS
  | WL_NO_SSID_AVAIL, WL_NO_SSID_AVAIL
  | WL_SCAN_COMPLETED, WL_SCAN_COMPLETED
  | WL_CONNECTED, WL_CONNECTED
  | WL_CONNECT_FAILED, WL_CONNECT_FAILED
  | WL_CONNECTION_LOST, WL_CONNECTION_LOST
  | WL_DISCONNECTED, WL_DISCONNECTED => true
  | _, _ => false
  end.

(** The request [sendToThingSpeak] builds: the query string of
    [http://api.thingspeak.com/update], field by field. *)
Record thingspeak_url : Type := {
  api_key : string;
  field1 : float;
  field2 : float;
  field3 : Z;
  field4 : Z
}.

(** The mail [sendEmailAlert] builds. *)
Record SMTP_Message : Type := {
  sender_name : string;
  sender_email : string;
  subject : string;
  recipient : string;
  text_content : string
}.

Record ESP_Mail_Session : Type := {
  host_name : string;
  port : Z;
  login_email : string;
  login_password : string;
  user_domain : string
}.

(** The outcome of one cycle. *)
Inductive AccessDecision : Type :=
| Granted
| Denied.

Definition decision_of (face_recognized : bool) : AccessDecision :=
  if face_recognized then Granted else Denied.

(** ** The firmware *)

(** The face engine and the image converter.  Their headers are not part
    of the sources; the interface is read off the calls.
    - [dl_matrix3du_t], [box_t], [aligned_face_t]: contents of an image
      matrix, a detected box, contents of an aligned face; the program
      only passes them on.
    - [fmt2rgb888 buf len format] decodes into the destination matrix:
      [None] when it returns false, the decoded contents otherwise.
    - [face_detect image] returns a [box_array_t *]: [None] for the null
      pointer, otherwise the boxes in detection order ([len] is their
      number).
    - [aligned_face_align image box] writes the aligned crop into its
      destination: [None] when it returns false.
    - [fr_recognize_face aligned reference] is the similarity score. *)
Class FaceEngine : Type := {
  dl_matrix3du_t : Type;
  box_t : Type;
  aligned_face_t : Type;
  fmt2rgb888 : list Z -> Z -> pixformat_t -> option dl_matrix3du_t;
  face_detect : dl_matrix3du_t -> option (list box_t);
  aligned_face_align : dl_matrix3du_t -> box_t -> option aligned_face_t;
  fr_recognize_face : aligned_face_t -> aligned_face_t -> float
}.

Section Firmware.

Context {engine : FaceEngine}.

(** What the outside answers during one pass through [loop]: the frame
    the camera hands out (or null), the two allocations (null, or the
    fresh contents), the mail transport, the WiFi state, the HTTP code. *)
Record cycle_env : Type := {
  esp_camera_fb_get : option camera_fb_t;
  dl_matrix3du_alloc : option dl_matrix3du_t;
  aligned_face_alloc : option aligned_face_t;
  smtp_connect : bool;
  MailClient_sendMail : bool;
  WiFi_status : wl_status_t;
  http_GET : Z
}.

(** What the outside answers during [loadAuthorizedFace]. *)
Record boot_env : Type := {
  SD_open : option File;
  boot_malloc : bool;
  boot_dl_matrix3du_alloc : option dl_matrix3du_t;
  boot_aligned_face_alloc : option aligned_face_t
}.

(** The globals the program writes after start-up. *)
Record globals : Type := {
  authorized_face : option aligned_face_t;
  attemptCount : Z
}.

(** Their initial values (lines 77 and 79). *)
Definition initial_globals : globals :=
  {| authorized_face := None; attemptCount := 0 |}.

(** Calls and stores, in program order.  A [printf] is recorded with its
    format, less the final newline, and its one argument. *)
Inductive event : Type :=
| E_Serial_println (s : string)
| E_Serial_printf (fmt : string) (arg : Z)
| E_delay (ms : Z)
| E_lcd_clear
| E_lcd_setCursor (col row : Z)
| E_lcd_print (s : string)
| E_digitalWrite (pin : Z) (high : bool)
| E_esp_camera_fb_get
| E_esp_camera_fb_return
| E_dl_matrix3du_alloc (n w h c : Z)
| E_dl_matrix3du_free
| E_fmt2rgb888
| E_face_detect
| E_aligned_face_alloc
| E_aligned_face_align (b : box_t)
| E_fr_recognize_face (score : float)
| E_aligned_face_free
| E_dl_lib_free (member : string)
| E_SD_open (path : string)
| E_malloc (size : Z)
| E_free
| E_file_read
| E_file_close
| E_store_attemptCount (v : Z)
| E_sendEmailAlert
| E_smtp_connect (s : ESP_Mail_Session)
| E_sendMail (m : SMTP_Message)
| E_sendToThingSpeak (lat lng : float) (accessStatus intruderAlert : Z)
| E_http_GET (url : thingspeak_url)
| E_http_end.

Definition trace : Type := list event.

(** *** State and trace monad *)

Definition M (A : Type) : Type := globals -> A * globals * trace.

Definition ret {A} (a : A) : M A := fun g => (a, g, []).

Definition value {A} (r : A * globals * trace) : A := fst (fst r).
Definition final {A} (r : A * globals * trace) : globals := snd (fst r).
Definition events {A} (r : A * globals * trace) : trace := snd r.

Definition bind {A B} (m : M A) (k : A -> M B) : M B :=
  fun g =>
    let r1 := m g in
    let r2 := k (value r1) (final r1) in
    (value r2, final r2, events r1 ++ events r2).

Notation "x <- m ;; k" := (bind m (fun x => k))
  (at level 61, m at next level, right associativity).
Notation "' pat <- m ;; k" := (bind m (fun x => match x with pat => k end))
  (at level 61, pat pattern, m at next level, right associativity).
Notation "m ;; k" := (bind m (fun _ => k))
  (at level 61, right associativity).

Definition emit (e : event) : M unit := fun g => (tt, g, [e]).

Definition load_authorized_face : M (option aligned_face_t) :=
  fun g => (authorized_face g, g, []).

(** A store to the pointer, or a write through it: the model keeps the
    contents the pointer leads to, [None] for the null pointer. *)
Definition store_authorized_face (v : option aligned_face_t) : M unit :=
  fun g =>
    (tt, {| authorized_face := v; attemptCount := attemptCount g |}, []).

Definition load_attemptCount : M Z :=
  fun g => (attemptCount g, g, []).

Definition store_attemptCount (v : Z) : M unit :=
  fun g =>
    (tt, {| authorized_face := authorized_face g; attemptCount := v |},
     [E_store_attemptCount v]).

Definition Serial_println (s : string) : M unit := emit (E_Serial_println s).
Definition Serial_printf (fmt : string) (arg : Z) : M unit :=
  emit (E_Serial_printf fmt arg).
Definition delay (ms : Z) : M unit := emit (E_delay ms).

(** [dl_lib_free] of the three arrays of a [box_array_t] and of the
    struct itself. *)
Definition free_boxes : M unit :=
  emit (E_dl_lib_free "score") ;;
  emit (E_dl_lib_free "box") ;;
  emit (E_dl_lib_free "landmark") ;;
  emit (E_dl_lib_free "").

(** *** [sendEmailAlert] (lines 386-416) *)

Definition alert_session : ESP_Mail_Session :=
  {| host_name := SMTP_HOST;
     port := SMTP_PORT;
     login_email := SENDER_EMAIL;
     login_password := SENDER_PASSWORD;
     user_domain := "gmail.com" |}.

Definition alert_message : SMTP_Message :=
  {| sender_name := "Vehicle Security";
     sender_email := SENDER_EMAIL;
     subject := "Intruder Alert!";
     recipient := RECEIVER_EMAIL;
     text_content :=
       String.append "An intruder tried to use the vehicle! Check: "
                     DASHBOARD_LINK |}.

(** The first event marks the call itself; [smtp.debug(0)] is left
    out. *)
Definition sendEmailAlert (e : cycle_env) : M bool :=
  emit E_sendEmailAlert ;;
  emit (E_smtp_connect alert_session) ;;
  if negb (smtp_connect e) then
    Serial_println "SMTP connect failed" ;;
    ret false
  else
    emit (E_sendMail alert_message) ;;
    if negb (MailClient_sendMail e) then
      Serial_println "Email send failed" ;;
      ret false
    else
      ret true.

(** *** [sendToThingSpeak] (lines 361-384) *)

(** The first event marks the call itself.  [errorToString] of the HTTP
    code is logged as the code. *)
Definition sendToThingSpeak (e : cycle_env) (lat lng : float)
    (accessStatus intruderAlert : Z) : M unit :=
  emit (E_sendToThingSpeak lat lng accessStatus intruderAlert) ;;
  if negb (wl_status_eqb (WiFi_status e) WL_CONNECTED) then
    Serial_println "WiFi disconnected, skip ThingSpeak"
  else
    let url := {| api_key := THINGSPEAK_API_KEY;
                  field1 := lat;
                  field2 := lng;
                  field3 := intruderAlert;
                  field4 := accessStatus |} in
    emit (E_http_GET url) ;;
    let httpCode := http_GET e in
    (if 0 <? httpCode then
       Serial_printf "ThingSpeak update code: %d" httpCode
     else
       Serial_printf "ThingSpeak failed: %s" httpCode) ;;
    emit E_http_end.

(** *** [loadAuthorizedFace] (lines 288-359) *)

Definition loadAuthorizedFace (e : boot_env) : M bool :=
  emit (E_SD_open "/faces/user1.jpg") ;;
  match SD_open e with
  | None =>
      Serial_println "Failed to open /faces/user1.jpg" ;;
      ret false
  | Some file =>
      let size := file_size file in
      emit (E_malloc size) ;;
      if negb (boot_malloc e) then
        Serial_println "Memory allocation failed" ;;
        emit E_file_close ;;
        ret false
      else
        emit E_file_read ;;
        emit E_file_close ;;
        emit (E_dl_matrix3du_alloc 1 320 240 3) ;;
        match boot_dl_matrix3du_alloc e with
        | None =>
            Serial_println "Image allocation failed" ;;
            emit E_free ;;
            ret false
        | Some _ =>
            emit E_fmt2rgb888 ;;
            match fmt2rgb888 (file_bytes file) size PIXFORMAT_JPEG with
            | None =>
                Serial_println "JPEG decode failed" ;;
                emit E_dl_matrix3du_free ;;
                emit E_free ;;
                ret false
            | Some image =>
                emit E_free ;;
                emit E_face_detect ;;
                match face_detect image with
                | None =>
                    Serial_println "No face detected in user1.jpg" ;;
                    emit E_dl_matrix3du_free ;;
                    ret false
                | Some [] =>
                    Serial_println "No face detected in user1.jpg" ;;
                    emit E_dl_matrix3du_free ;;
                    free_boxes ;;
                    ret false
                | Some (box0 :: _) =>
                    emit E_aligned_face_alloc ;;
                    store_authorized_face (boot_aligned_face_alloc e) ;;
                    allocated <- load_authorized_face ;;
                    aligned <-
                      match allocated with
                      | None => ret false
                      | Some _ =>
                          emit (E_aligned_face_align box0) ;;
                          match aligned_face_align image box0 with
                          | None => ret false
                          | Some face =>
                              store_authorized_face (Some face) ;;
                              ret true
                          end
                      end ;;
                    if negb aligned then
                      Serial_println "Face alignment failed" ;;
                      emit E_dl_matrix3du_free ;;
                      free_boxes ;;
                      match allocated with
                      | Some _ =>
                          emit E_aligned_face_free ;;
                          store_authorized_face None
                      | None => ret tt
                      end ;;
                      ret false
                    else
                      emit E_dl_matrix3du_free ;;
                      free_boxes ;;
                      Serial_println "Authorized face loaded" ;;
                      ret true
                end
            end
        end
  end.

(** *** [loop] (lines 204-285) *)

(** The [for] loop of lines 231-239 over [net_boxes->box[0 .. len-1]];
    the result is [face_recognized] when the loop is left.  The one
    [aligned] buffer is overwritten by every [aligned_face_align]. *)
Fixpoint scan_boxes (image_matrix : dl_matrix3du_t)
    (reference : aligned_face_t) (boxes : list box_t) : M bool :=
  match boxes with
  | [] => ret false
  | b :: rest =>
      emit (E_aligned_face_align b) ;;
      match aligned_face_align image_matrix b with
      | Some aligned =>
          let score := fr_recognize_face aligned reference in
          emit (E_fr_recognize_face score) ;;
          if float_gt score MATCH_THRESHOLD then
            ret true
          else
            scan_boxes image_matrix reference rest
      | None => scan_boxes image_matrix reference rest
      end
  end.

(** The locals of [loop] when it reaches its last line. *)
Record cycle_locals : Type := {
  face_detected : bool;
  face_recognized : bool;
  accessStatus : Z;
  intruderAlert : Z
}.

(** Lines 228-242: the match against the enrolled face; the result is
    [face_recognized].  Under [face_detected] the pointer [net_boxes] is
    not null. *)
Definition loop_recognize (e : cycle_env) (image_matrix : dl_matrix3du_t)
    (net_boxes : option (list box_t)) (face_detected : bool) : M bool :=
  reference <- load_authorized_face ;;
  match face_detected, reference, net_boxes with
  | true, Some reference, Some boxes =>
      emit E_aligned_face_alloc ;;
      match aligned_face_alloc e with
      | Some _ =>
          recognized <- scan_boxes image_matrix reference boxes ;;
          emit E_aligned_face_free ;;
          ret recognized
      | None => ret false
      end
  | _, _, _ => ret false
  end.

(** Lines 244-271: display, buzzer, attempt counter and alert; the
    result is [(accessStatus, intruderAlert)]. *)
Definition loop_decide (e : cycle_env) (face_recognized : bool)
    : M (Z * Z) :=
  if face_recognized then
    emit E_lcd_clear ;;
    emit (E_lcd_setCursor 0 0) ;;
    emit (E_lcd_print "Access Granted") ;;
    store_attemptCount 0 ;;
    Serial_println "Face recognized!" ;;
    ret (1, 0)
  else
    emit E_lcd_clear ;;
    emit (E_lcd_setCursor 0 0) ;;
    emit (E_lcd_print "Access Denied") ;;
    emit (E_lcd_setCursor 0 1) ;;
    emit (E_lcd_print "Not Allowed!") ;;
    emit (E_digitalWrite BUZZER_PIN true) ;;
    delay 500 ;;
    emit (E_digitalWrite BUZZER_PIN false) ;;
    count <- load_attemptCount ;;
    store_attemptCount (Int.incr count) ;;
    count <- load_attemptCount ;;
    Serial_printf "No match - attempt: %d" count ;;
    if MAX_ATTEMPTS <=? count then
      sendEmailAlert e ;;
      store_attemptCount 0 ;;
      ret (0, 1)
    else
      ret (0, 0).

(** [loop] returns nothing; the model returns [None] from the two early
    returns and the locals from the end of the function. *)
Definition loop (e : cycle_env) : M (option cycle_locals) :=
  emit E_esp_camera_fb_get ;;
  match esp_camera_fb_get e with
  | None =>
      Serial_println "Camera capture failed" ;;
      delay 500 ;;
      ret None
  | Some fb =>
      emit (E_dl_matrix3du_alloc 1 (width fb) (height fb) 3) ;;
      match dl_matrix3du_alloc e with
      | None =>
          Serial_println "dl_matrix3du_alloc failed" ;;
          emit E_esp_camera_fb_return ;;
          delay 200 ;;
          ret None
      | Some fresh =>
          emit E_fmt2rgb888 ;;
          let image_matrix :=
            match fmt2rgb888 (buf fb) (len fb) (format fb) with
            | Some converted => converted
            | None => fresh
            end in
          emit E_face_detect ;;
          let net_boxes := face_detect image_matrix in
          let face_detected :=
            match net_boxes with
            | Some boxes => 0 <? Z.of_nat (List.length boxes)
            | None => false
            end in
          face_recognized <-
            loop_recognize e image_matrix net_boxes face_detected ;;
          ' (accessStatus, intruderAlert) <- loop_decide e face_recognized ;;
          sendToThingSpeak e dummyLat dummyLng accessStatus intruderAlert ;;
          match net_boxes with
          | Some _ => free_boxes
          | None => ret tt
          end ;;
          emit E_dl_matrix3du_free ;;
          emit E_esp_camera_fb_return ;;
          delay 2000 ;;
          ret (Some {| face_detected := face_detected;
                       face_recognized := face_recognized;
                       accessStatus := accessStatus;
                       intruderAlert := intruderAlert |})
      end
  end.

(** States the firmware can be in between two passes through [loop],
    from the state [g0] that [setup] leaves. *)
Inductive reachable (g0 : globals) : globals -> Prop :=
| reachable_start : reachable g0 g0
| reachable_cycle (g : globals) (e : cycle_env) :
    reachable g0 g -> reachable g0 (final (loop e g)).

(** Several passes in a row: the locals and the trace of each, and the
    globals at the end. *)
Fixpoint run_cycles (es : list cycle_env) (g : globals)
    : list (option cycle_locals * trace) * globals :=
  match es with
  | [] => ([], g)
  | e :: es' =>
      let r := loop e g in
      let '(rs, g') := run_cycles es' (final r) in
      ((value r, events r) :: rs, g')
  end.

(** ** Reading a run *)

(** The decision of a pass, when it made one. *)
Definition decision (locals : option cycle_locals) : option AccessDecision :=
  option_map (fun l => decision_of (face_recognized l)) locals.

(** The boxes handed to [aligned_face_align], in call order. *)
Definition aligned_boxes (t : trace) : list box_t :=
  flat_map (fun ev => match ev with
                      | E_aligned_face_align b => [b]
                      | _ => []
                      end) t.

(** The scores [fr_recognize_face] returned, in call order. *)
Definition recognize_scores (t : trace) : list float :=
  flat_map (fun ev => match ev with
                      | E_fr_recognize_face score => [score]
                      | _ => []
                      end) t.

(** The calls of [sendEmailAlert]: the alert events. *)
Definition alert_calls (t : trace) : list unit :=
  flat_map (fun ev => match ev with
                      | E_sendEmailAlert => [tt]
                      | _ => []
                      end) t.

Definition alerts (t : trace) : nat := List.length (alert_calls t).

(** The arguments of the calls of [sendToThingSpeak]. *)
Definition telemetry_calls (t : trace) : list (float * float * Z * Z) :=
  flat_map (fun ev => match ev with
                      | E_sendToThingSpeak lat lng a i => [(lat, lng, a, i)]
                      | _ => []
                      end) t.

(** The requests that went out. *)
Definition http_requests (t : trace) : list thingspeak_url :=
  flat_map (fun ev => match ev with
                      | E_http_GET url => [url]
                      | _ => []
                      end) t.

Definition delays (t : trace) : list Z :=
  flat_map (fun ev => match ev with
                      | E_delay ms => [ms]
                      | _ => []
                      end) t.

(** The values stored to [attemptCount], in program order. *)
Definition attemptCount_stores (t : trace) : list Z :=
  flat_map (fun ev => match ev with
                      | E_store_attemptCount v => [v]
                      | _ => []
                      end) t.

(** The image [face_detect] is run on, for a pass that gets past the
    frame capture and the matrix allocation.  The return value of
    [fmt2rgb888] is not looked at in [loop]: when the conversion fails
    the matrix keeps the contents it was allocated with. *)
Definition cycle_image (e : cycle_env) : option dl_matrix3du_t :=
  match esp_camera_fb_get e, dl_matrix3du_alloc e with
  | Some fb, Some fresh =>
      Some match fmt2rgb888 (buf fb) (len fb) (format fb) with
           | Some converted => converted
           | None => fresh
           end
  | _, _ => None
  end.

(** Line 223: [net_boxes && net_boxes->len > 0]. *)
Definition any_face (net_boxes : option (list box_t)) : bool :=
  match net_boxes with
  | Some boxes => 0 <? Z.of_nat (List.length boxes)
  | None => false
  end.

(** A detected box qualifies when it aligns and the aligned crop scores
    above the threshold against the reference. *)
Definition qualifies (image : dl_matrix3du_t) (reference : aligned_face_t)
    (b : box_t) : Prop :=
  exists aligned,
    aligned_face_align image b = Some aligned /\
    float_gt (fr_recognize_face aligned reference) MATCH_THRESHOLD = true.

(** The environment [e] with other answers of the mail transport. *)
Definition with_mail (e : cycle_env) (connect send : bool) : cycle_env :=
  {| esp_camera_fb_get := esp_camera_fb_get e;
     dl_matrix3du_alloc := dl_matrix3du_alloc e;
     aligned_face_alloc := aligned_face_alloc e;
     smtp_connect := connect;
     MailClient_sendMail := send;
     WiFi_status := WiFi_status e;
     http_GET := http_GET e |}.

(** The environment [e] with another answer to [aligned_face_alloc]. *)
Definition with_aligned_face_alloc (e : cycle_env)
    (answer : option aligned_face_t) : cycle_env :=
  {| esp_camera_fb_get := esp_camera_fb_get e;
     dl_matrix3du_alloc := dl_matrix3du_alloc e;
     aligned_face_alloc := answer;
     smtp_connect := smtp_connect e;
     MailClient_sendMail := MailClient_sendMail e;
     WiFi_status := WiFi_status e;
     http_GET := http_GET e |}.

(** ** The words of the specification *)

(** A candidate matches in a run when the run hands it to the aligner,
    the alignment succeeds and the score it is given is above the
    threshold. *)
Definition matches_in (t : trace) (image : dl_matrix3du_t)
    (reference : aligned_face_t) (b : box_t) : Prop :=
  In b (aligned_boxes t) /\ qualifies image reference b.

(** The steps of the enrollment the specification lists: the stored
    image opens, its buffer and its raster are allocated, the JPEG
    decodes to [image], detection finds at least one face, the first one
    being [box0], and [box0] aligns to [face]. *)
Definition enrollment_steps (b : boot_env) (image : dl_matrix3du_t)
    (box0 : box_t) (face : aligned_face_t) : Prop :=
  exists file raster rest,
    SD_open b = Some file /\
    boot_malloc b = true /\
    boot_dl_matrix3du_alloc b = Some raster /\
    fmt2rgb888 (file_bytes file) (file_size file) PIXFORMAT_JPEG
      = Some image /\
    face_detect image = Some (box0 :: rest) /\
    aligned_face_align image box0 = Some face.

(** "On every exit path of a cycle the fixed delay of 2000 ms is run." *)
Definition fixed_delay_as_stated (e : cycle_env) (g : globals) : Prop :=
  In 2000 (delays (events (loop e g))).

End Firmware.

(** ** A bench engine *)

(** A small engine to run the model on.  An image is its list of pixels
    and every non-zero pixel is a face; a face aligns when its pixel is
    positive; an aligned face scores 1 against itself, and against
    another reference its pixel times 2^-24, or NaN when the pixel does
    not fit the 24 bits of a significand. *)
#[export] Instance bench_engine : FaceEngine := {|
  dl_matrix3du_t := list Z;
  box_t := Z;
  aligned_face_t := Z;
  fmt2rgb888 := fun buf _ _ =>
    match buf with
    | [] => None
    | _ => Some buf
    end;
  face_detect := fun image =>
    match filter (fun pixel => negb (pixel =? 0)) image with
    | [] => None
    | faces => Some faces
    end;
  aligned_face_align := fun _ b => if 0 <? b then Some b else None;
  fr_recognize_face := fun aligned reference =>
    if aligned =? reference then F_finite false 8388608 (-23)
    else match aligned with
         | Z.pos p =>
             if (Pos.size_nat p <=? 24)%nat then F_finite false p (-24)
             else F_nan
         | _ => F_zero false
         end
|}.

Definition bench_frame (pixels : list Z) : camera_fb_t :=
  {| buf := pixels;
     len := Z.of_nat (List.length pixels);
     width := 320;
     height := 240;
     format := PIXFORMAT_RGB565 |}.

(** A pass that captures [pixels], with the aligned-face buffer
    allocated or not, the mail going out or not, and WiFi up or not. *)
Definition bench_cycle (pixels : list Z) (aligned_ok mail_ok : bool)
    (wifi : wl_status_t) : cycle_env :=
  {| esp_camera_fb_get := Some (bench_frame pixels);
     dl_matrix3du_alloc := Some [];
     aligned_face_alloc := if aligned_ok then Some 0 else None;
     smtp_connect := mail_ok;
     MailClient_sendMail := mail_ok;
     WiFi_status := wifi;
     http_GET := 200 |}.

(** A pass in which the camera hands out no frame. *)
Definition bench_no_frame : cycle_env :=
  {| esp_camera_fb_get := None;
     dl_matrix3du_alloc := Some [];
     aligned_face_alloc := Some 0;
     smtp_connect := true;
     MailClient_sendMail := true;
     WiFi_status := WL_CONNECTED;
     http_GET := 200 |}.

(** A pass in which the image matrix cannot be allocated. *)
Definition bench_no_matrix : cycle_env :=
  {| esp_camera_fb_get := Some (bench_frame [55; 90]);
     dl_matrix3du_alloc := None;
     aligned_face_alloc := Some 0;
     smtp_connect := true;
     MailClient_sendMail := true;
     WiFi_status := WL_CONNECTED;
     http_GET := 200 |}.

(** A card holding [/faces/user1.jpg] with the given pixels (or not
    holding it), and the aligned-face allocation working or not. *)
Definition bench_boot (stored : option (list Z)) (aligned_ok : bool)
    : boot_env :=
  {| SD_open :=
       option_map (fun pixels =>
                     {| file_size := Z.of_nat (List.length pixels);
                        file_bytes := pixels |}) stored;
     boot_malloc := true;
     boot_dl_matrix3du_alloc := Some [];
     boot_aligned_face_alloc := if aligned_ok then Some 0 else None |}.

(** The globals with face 100 enrolled and [count] failed attempts. *)
Definition bench_enrolled (count : Z) : globals :=
  {| authorized_face := Some 100; attemptCount := count |}.


(** ** Resources, display and buzzer in a trace *)

Section Resources.

Context {engine : FaceEngine}.

(** How many events of a trace satisfy [p]. *)
Definition count (p : event -> bool) (t : trace) : nat :=
  List.length (filter p t).

Definition is_fb_return (ev : event) : bool :=
  match ev with E_esp_camera_fb_return => true | _ => false end.

Definition is_matrix_free (ev : event) : bool :=
  match ev with E_dl_matrix3du_free => true | _ => false end.

Definition is_aligned_face_free (ev : event) : bool :=
  match ev with E_aligned_face_free => true | _ => false end.

Definition is_dl_lib_free (ev : event) : bool :=
  match ev with E_dl_lib_free _ => true | _ => false end.

Definition is_file_close (ev : event) : bool :=
  match ev with E_file_close => true | _ => false end.

Definition is_free (ev : event) : bool :=
  match ev with E_free => true | _ => false end.

Definition is_aligned_face_alloc (ev : event) : bool :=
  match ev with E_aligned_face_alloc => true | _ => false end.

(** The members of a [box_array_t] handed to [dl_lib_free], the empty
    name standing for the struct itself. *)
Definition freed_members (t : trace) : list string :=
  flat_map (fun ev => match ev with
                      | E_dl_lib_free member => [member]
                      | _ => []
                      end) t.

Definition is_smtp_connect (ev : event) : bool :=
  match ev with E_smtp_connect _ => true | _ => false end.

Definition is_http_end (ev : event) : bool :=
  match ev with E_http_end => true | _ => false end.

(** The calls each part of [loop] can make: the scan of lines 231-239,
    the match of lines 228-242, the decision of lines 244-271 and
    [sendToThingSpeak]. *)
Definition engine_call (ev : event) : Prop :=
  match ev with
  | E_aligned_face_align _ | E_fr_recognize_face _ => True
  | _ => False
  end.

Definition recognize_call (ev : event) : Prop :=
  match ev with
  | E_aligned_face_alloc | E_aligned_face_free
  | E_aligned_face_align _ | E_fr_recognize_face _ => True
  | _ => False
  end.

Definition decide_call (ev : event) : Prop :=
  match ev with
  | E_lcd_clear | E_lcd_setCursor _ _ | E_lcd_print _
  | E_digitalWrite _ _ | E_delay _ | E_store_attemptCount _
  | E_Serial_println _ | E_Serial_printf _ _
  | E_sendEmailAlert | E_smtp_connect _ | E_sendMail _ => True
  | _ => False
  end.

Definition telemetry_call (ev : event) : Prop :=
  match ev with
  | E_sendToThingSpeak _ _ _ _ | E_http_GET _ | E_http_end
  | E_Serial_println _ | E_Serial_printf _ _ => True
  | _ => False
  end.

(** The mails handed to [MailClient.sendMail]. *)
Definition mails_sent (t : trace) : list SMTP_Message :=
  flat_map (fun ev => match ev with
                      | E_sendMail m => [m]
                      | _ => []
                      end) t.

(** The levels written to the buzzer pin, in program order. *)
Definition buzzer_writes (t : trace) : list bool :=
  flat_map (fun ev => match ev with
                      | E_digitalWrite pin high =>
                          if pin =? BUZZER_PIN then [high] else []
                      | _ => []
                      end) t.

(** The texts printed on the LCD. *)
Definition lcd_prints (t : trace) : list string :=
  flat_map (fun ev => match ev with
                      | E_lcd_print s => [s]
                      | _ => []
                      end) t.

(** The lines written with [Serial.println]. *)
Definition serial_lines (t : trace) : list string :=
  flat_map (fun ev => match ev with
                      | E_Serial_println s => [s]
                      | _ => []
                      end) t.

(** The environment [e] with other answers of the network. *)
Definition with_network (e : cycle_env) (wifi : wl_status_t) (code : Z)
    : cycle_env :=
  {| esp_camera_fb_get := esp_camera_fb_get e;
     dl_matrix3du_alloc := dl_matrix3du_alloc e;
     aligned_face_alloc := aligned_face_alloc e;
     smtp_connect := smtp_connect e;
     MailClient_sendMail := MailClient_sendMail e;
     WiFi_status := wifi;
     http_GET := code |}.

(** The boxes the scan hands to the aligner, by the boxes alone: up to
    and including the first one that aligns and scores above the
    threshold. *)
Fixpoint scanned (image : dl_matrix3du_t) (reference : aligned_face_t)
    (boxes : list box_t) : list box_t :=
  match boxes with
  | [] => []
  | b :: rest =>
      match aligned_face_align image b with
      | Some aligned =>
          if float_gt (fr_recognize_face aligned reference) MATCH_THRESHOLD
          then [b]
          else b :: scanned image reference rest
      | None => b :: scanned image reference rest
      end
  end.

(** The score of every box of a list that aligns. *)
Definition scores_of (image : dl_matrix3du_t) (reference : aligned_face_t)
    (boxes : list box_t) : list float :=
  flat_map (fun b => match aligned_face_align image b with
                     | Some aligned => [fr_recognize_face aligned reference]
                     | None => []
                     end) boxes.

(** How many passes of a run were denied, and how many alerts it sent. *)
Definition denied_passes (passes : list (option cycle_locals * trace))
    : nat :=
  List.length
    (filter (fun p => match decision (fst p) with
                      | Some Denied => true
                      | _ => false
                      end) passes).

Definition granted_passes (passes : list (option cycle_locals * trace))
    : nat :=
  List.length
    (filter (fun p => match decision (fst p) with
                      | Some Granted => true
                      | _ => false
                      end) passes).

Definition alerts_sent (passes : list (option cycle_locals * trace)) : nat :=
  list_sum (map (fun p => alerts (snd p)) passes).

End Resources.

(** ** [setup] (lines 93-202) *)

Definition I2C_SDA : Z := 14.
Definition I2C_SCL : Z := 13.
Definition SD_CS : Z := 15.
Definition WIFI_SSID := "YOUR_WIFI_SSID".
Definition WIFI_PASSWORD := "YOUR_WIFI_PASSWORD".
Definition ESP_OK : Z := 0.

Inductive framesize_t : Type :=
| FRAMESIZE_QVGA.

(** [camera_config_t] as [setup] fills it in, for the AI Thinker
    board. *)
Record camera_config_t : Type := {
  ledc_channel : Z;
  ledc_timer : Z;
  pin_d0 : Z;
  pin_d1 : Z;
  pin_d2 : Z;
  pin_d3 : Z;
  pin_d4 : Z;
  pin_d5 : Z;
  pin_d6 : Z;
  pin_d7 : Z;
  pin_xclk : Z;
  pin_pclk : Z;
  pin_vsync : Z;
  pin_href : Z;
  pin_sscb_sda : Z;
  pin_sscb_scl : Z;
  pin_pwdn : Z;
  pin_reset : Z;
  xclk_freq_hz : Z;
  pixel_format : pixformat_t;
  frame_size : framesize_t;
  jpeg_quality : Z;
  fb_count : Z
}.

Definition config : camera_config_t :=
  {| ledc_channel := 0;
     ledc_timer := 0;
     pin_d0 := 5;
     pin_d1 := 18;
     pin_d2 := 19;
     pin_d3 := 21;
     pin_d4 := 36;
     pin_d5 := 39;
     pin_d6 := 34;
     pin_d7 := 35;
     pin_xclk := 0;
     pin_pclk := 22;
     pin_vsync := 25;
     pin_href := 23;
     pin_sscb_sda := 26;
     pin_sscb_scl := 27;
     pin_pwdn := 32;
     pin_reset := -1;
     xclk_freq_hz := 20000000;
     pixel_format := PIXFORMAT_RGB565;
     frame_size := FRAMESIZE_QVGA;
     jpeg_quality := 12;
     fb_count := 2 |}.

(** [unsigned long] is 32 bits wide on the target: [a - b]. *)
Definition ulong_sub (a b : Z) : Z := (a - b) mod 2 ^ 32.

Section Setup.

Context {engine : FaceEngine}.

(** What the outside answers during [setup]: the card reader, the
    answer of the [k]-th call of [WiFi.status()] and of the [k]-th call
    of [millis()], counted from 0, the address the access point gave,
    the camera driver, and the answers [loadAuthorizedFace] gets. *)
Record setup_env : Type := {
  SD_begin : bool;
  WiFi_status_at : nat -> wl_status_t;
  millis_at : nat -> Z;
  WiFi_localIP : string;
  esp_camera_init : Z;
  card : boot_env
}.

(** The calls of [setup]: those [loop] and the helpers make too, and
    those only [setup] makes. *)
Inductive setup_event : Type :=
| S_event (ev : event)
| S_Serial_begin (baud : Z)
| S_Serial_print (s : string)
| S_Serial_printf_s (fmt : string) (arg : string)
| S_pinMode_OUTPUT (pin : Z)
| S_Wire_begin (sda scl : Z)
| S_lcd_init
| S_lcd_backlight
| S_SD_begin (cs : Z)
| S_WiFi_mode_STA
| S_WiFi_begin (ssid password : string)
| S_WiFi_status (answer : wl_status_t)
| S_millis (answer : Z)
| S_esp_camera_init (c : camera_config_t)
| S_mtmn_init_config
| S_fr_init_config.

(** Lines 94-107. *)
Definition setup_start : list setup_event :=
  [S_Serial_begin 115200;
   S_event (E_delay 100);
   S_event (E_Serial_println "Starting Face Recognition");
   S_pinMode_OUTPUT BUZZER_PIN;
   S_event (E_digitalWrite BUZZER_PIN false);
   S_Wire_begin I2C_SDA I2C_SCL;
   S_lcd_init;
   S_lcd_backlight;
   S_event (E_lcd_setCursor 0 0);
   S_event (E_lcd_print "Initializing...")].

(** Lines 109-120. *)
Definition setup_sd (e : setup_env) : list setup_event :=
  S_SD_begin SD_CS ::
  if negb (SD_begin e) then
    [S_event (E_Serial_println "SD card init failed!");
     S_event E_lcd_clear;
     S_event (E_lcd_print "SD Error!")]
  else
    [S_event (E_Serial_println "SD card initialized")].

(** Lines 123-126: the last call is [millis()], its answer is
    [wifiStart]. *)
Definition setup_wifi_begin (e : setup_env) : list setup_event :=
  [S_WiFi_mode_STA;
   S_WiFi_begin WIFI_SSID WIFI_PASSWORD;
   S_Serial_print "Connecting to WiFi";
   S_millis (millis_at e 0)].

(** The [while] loop of lines 127-130, entered with [i] calls of
    [WiFi.status()] and [i + 1] calls of [millis()] made.  The second
    operand of [&&] is evaluated when the first holds.  The result is
    the number of calls of [WiFi.status()] made when the loop is left;
    [None] when [fuel] turns of the loop do not leave it. *)
Fixpoint wifi_wait (e : setup_env) (wifiStart : Z) (fuel i : nat)
    : option (nat * list setup_event) :=
  match fuel with
  | O => None
  | S fuel' =>
      if negb (wl_status_eqb (WiFi_status_at e i) WL_CONNECTED) then
        if ulong_sub (millis_at e (S i)) wifiStart <? 20000 then
          match wifi_wait e wifiStart fuel' (S i) with
          | Some (polls, t) =>
              Some (polls,
                    [S_WiFi_status (WiFi_status_at e i);
                     S_millis (millis_at e (S i));
                     S_event (E_delay 250);
                     S_Serial_print "."] ++ t)
          | None => None
          end
        else
          Some (S i, [S_WiFi_status (WiFi_status_at e i);
                      S_millis (millis_at e (S i))])
      else
        Some (S i, [S_WiFi_status (WiFi_status_at e i)])
  end.

(** Lines 131-144, after [polls] calls of [WiFi.status()]. *)
Definition setup_wifi_report (e : setup_env) (polls : nat)
    : list setup_event :=
  S_event (E_Serial_println "") ::
  S_WiFi_status (WiFi_status_at e polls) ::
  if wl_status_eqb (WiFi_status_at e polls) WL_CONNECTED then
    [S_Serial_printf_s "WiFi connected: %s" (WiFi_localIP e);
     S_event E_lcd_clear;
     S_event (E_lcd_print "WiFi Connected")]
  else
    [S_event (E_Serial_println "WiFi connect timeout");
     S_event E_lcd_clear;
     S_event (E_lcd_print "WiFi Timeout")].

(** Lines 147-184. *)
Definition setup_camera (e : setup_env) : list setup_event :=
  S_esp_camera_init config ::
  (if negb (esp_camera_init e =? ESP_OK) then
     [S_event (E_Serial_printf "Camera init failed: 0x%x" (esp_camera_init e));
      S_event E_lcd_clear;
      S_event (E_lcd_print "Camera Error!");
      S_event (E_delay 5000)]
   else [])
  ++ [S_mtmn_init_config; S_fr_init_config].

(** Lines 187-193, with the answer of [loadAuthorizedFace]. *)
Definition setup_no_face (loaded : bool) : list setup_event :=
  if negb loaded then
    [S_event (E_Serial_println "No authorized face loaded");
     S_event E_lcd_clear;
     S_event (E_lcd_print "No Face Loaded!")]
  else [].

(** Lines 195-201. *)
Definition setup_prompt : list setup_event :=
  [S_event E_lcd_clear;
   S_event (E_lcd_setCursor 0 0);
   S_event (E_lcd_print "Present your face");
   S_event (E_lcd_setCursor 0 1);
   S_event (E_lcd_print "to authorize")].

(** [setup], run from the initial globals: the globals it leaves and
    its calls; [None] when the wait for WiFi is not over after [fuel]
    turns. *)
Definition setup (e : setup_env) (fuel : nat)
    : option (globals * list setup_event) :=
  match wifi_wait e (millis_at e 0) fuel 0 with
  | None => None
  | Some (polls, waiting) =>
      let r := loadAuthorizedFace (card e) initial_globals in
      Some (final r,
            setup_start
            ++ setup_sd e
            ++ setup_wifi_begin e
            ++ waiting
            ++ setup_wifi_report e polls
            ++ setup_camera e
            ++ map S_event (events r)
            ++ setup_no_face (value r)
            ++ setup_prompt)
  end.

(** The delays of [setup], in program order, and what it prints on the
    LCD. *)
Definition setup_delays (t : list setup_event) : list Z :=
  flat_map (fun ev => match ev with
                      | S_event (E_delay ms) => [ms]
                      | _ => []
                      end) t.

Definition setup_lcd_prints (t : list setup_event) : list string :=
  flat_map (fun ev => match ev with
                      | S_event (E_lcd_print s) => [s]
                      | _ => []
                      end) t.

(** The clock runs: the loop of lines 127-130 holds for 250 ms between
    two readings of [millis()], so that the reading of its turn [k],
    counted from 0, is at least [250 * k] ms after [wifiStart]. *)
Definition clock_runs (e : setup_env) : Prop :=
  forall k : nat,
    (k <= 80)%nat ->
    250 * Z.of_nat k <= ulong_sub (millis_at e (S k)) (millis_at e 0).

End Setup.

(** The bench at start-up: WiFi answers [WL_CONNECTED] from the call
    [connected_at] on, the clock starts at 100 ms and a turn of the
    waiting loop takes 250 ms. *)
Definition bench_setup (sd_ok : bool) (connected_at : nat)
    (camera_err : Z) (stored : option (list Z)) : setup_env :=
  {| SD_begin := sd_ok;
     WiFi_status_at := fun k =>
       if (connected_at <=? k)%nat then WL_CONNECTED else WL_DISCONNECTED;
     millis_at := fun k => 100 + 250 * Z.of_nat (Nat.pred k);
     WiFi_localIP := "192.168.4.2";
     esp_camera_init := camera_err;
     card := bench_boot stored true |}.

(** * Properties *)

(** ** Integers and floats *)

Lemma int_wrap_id z : Int.min_int <= z <= Int.max_int -> Int.wrap z = z.
Proof.
  unfold Int.wrap, Int.min_int, Int.max_int. intros H.
  rewrite Z.mod_small by lia. lia.
Qed.

Lemma int_incr_succ x :
  Int.min_int <= x < Int.max_int -> Int.incr x = x + 1.
Proof. intros H. unfold Int.incr. apply int_wrap_id. lia. Qed.

(** [x > y] holds of two finite floats when it holds of the rationals
    they denote. *)
Lemma float_gt_finite sx mx ex sy my ey :
  float_gt (F_finite sx mx ex) (F_finite sy my ey) = true
  <-> (finite_value sy my ey < finite_value sx mx ex)%Q.
Proof.
  unfold float_gt, float_compare, float_Q.
  rewrite (Qgt_alt (finite_value sx mx ex) (finite_value sy my ey)).
  destruct (finite_value sx mx ex ?= finite_value sy my ey)%Q;
    split; intros H; congruence.
Qed.

(** No comparison with a NaN holds. *)
Lemma float_gt_nan x : float_gt F_nan x = false /\ float_gt x F_nan = false.
Proof. split; [reflexivity | destruct x as [|[]|[]|[] ? ?]; reflexivity]. Qed.

(** What is at most [y] is not above [y]; a NaN is neither. *)
Lemma float_le_not_gt x y : float_le x y = true -> float_gt x y = false.
Proof.
  unfold float_le, float_gt.
  destruct (float_compare x y) as [[]|]; intros H;
    [reflexivity | reflexivity | discriminate | discriminate].
Qed.

(** The threshold is a binary32, the one nearest to the decimal 0.6:
    it lies above 0.6, its predecessor lies below, further away. *)
Lemma MATCH_THRESHOLD_is_0_6f :
  binary32 MATCH_THRESHOLD = true /\
  float_Q MATCH_THRESHOLD = (10066330 # 16777216)%Q /\
  (10066329 # 16777216 < 6 # 10)%Q /\
  (6 # 10 < float_Q MATCH_THRESHOLD)%Q /\
  (float_Q MATCH_THRESHOLD - (6 # 10) < (6 # 10) - (10066329 # 16777216))%Q.
Proof. repeat split. Qed.

(** A score equal to the threshold is not above it. *)
Lemma MATCH_THRESHOLD_not_above_itself :
  float_gt MATCH_THRESHOLD MATCH_THRESHOLD = false.
Proof. reflexivity. Qed.

(** The scores of the example are the binary32 values nearest to 0.55
    and 0.9, within half a unit in the last place, 2^-25; the first is
    not above the threshold, the second is. *)
Lemma example_scores :
  binary32 score_0_55 = true /\ binary32 score_0_9 = true /\
  ((55 # 100) - (1 # 2 ^ 25) <= float_Q score_0_55
   <= (55 # 100) + (1 # 2 ^ 25))%Q /\
  ((9 # 10) - (1 # 2 ^ 25) <= float_Q score_0_9
   <= (9 # 10) + (1 # 2 ^ 25))%Q /\
  float_gt score_0_55 MATCH_THRESHOLD = false /\
  float_gt score_0_9 MATCH_THRESHOLD = true.
Proof.
  split; [reflexivity|]. split; [reflexivity|].
  split; [split; vm_compute; discriminate|].
  split; [split; vm_compute; discriminate|].
  split; reflexivity.
Qed.

(** The coordinates the telemetry carries are binary32 values. *)
Lemma dummy_coordinates_are_floats :
  binary32 dummyLat = true /\ binary32 dummyLng = true /\
  float_Q dummyLat = (-13738495 # 524288)%Q /\
  float_Q dummyLng = (14704863 # 524288)%Q.
Proof. repeat split. Qed.

Section Properties.

Context {engine : FaceEngine}.

(** ** The monad *)

Lemma value_bind {A B} (m : M A) (k : A -> M B) g :
  value (bind m k g) = value (k (value (m g)) (final (m g))).
Proof. reflexivity. Qed.

Lemma final_bind {A B} (m : M A) (k : A -> M B) g :
  final (bind m k g) = final (k (value (m g)) (final (m g))).
Proof. reflexivity. Qed.

Lemma events_bind {A B} (m : M A) (k : A -> M B) g :
  events (bind m k g)
  = events (m g) ++ events (k (value (m g)) (final (m g))).
Proof. reflexivity. Qed.

(** ** The scan over the detected boxes *)

(** The scan reads the globals and leaves them alone. *)
Lemma scan_boxes_final image reference boxes g :
  final (scan_boxes image reference boxes g) = g.
Proof.
  induction boxes as [|b rest IH]; [reflexivity|].
  cbn [scan_boxes]. rewrite final_bind. cbn.
  destruct (aligned_face_align image b) as [aligned|]; [|exact IH].
  rewrite final_bind. cbn.
  destruct (float_gt _ _); [reflexivity | exact IH].
Qed.

Lemma qualifies_dec image reference b :
  {qualifies image reference b} + {~ qualifies image reference b}.
Proof.
  unfold qualifies.
  destruct (aligned_face_align image b) as [aligned|] eqn:Ha.
  - destruct (float_gt (fr_recognize_face aligned reference) MATCH_THRESHOLD)
      eqn:Hs.
    + left. exists aligned. split; [reflexivity | exact Hs].
    + right. intros [a [Ea Hlt]]. injection Ea as <-. congruence.
  - right. intros [a [Ea _]]. discriminate.
Qed.

(** One turn of the scan on a box that qualifies: the loop is left. *)
Lemma scan_boxes_hit image reference b rest g :
  qualifies image reference b ->
  value (scan_boxes image reference (b :: rest) g) = true /\
  aligned_boxes (events (scan_boxes image reference (b :: rest) g)) = [b].
Proof.
  intros [aligned [Ha Hs]].
  cbn [scan_boxes]. rewrite value_bind, events_bind. cbn.
  rewrite Ha. cbn. rewrite Hs. split; reflexivity.
Qed.

(** One turn on a box that does not: the scan goes on with the rest. *)
Lemma scan_boxes_miss image reference b rest g :
  ~ qualifies image reference b ->
  value (scan_boxes image reference (b :: rest) g)
  = value (scan_boxes image reference rest g) /\
  aligned_boxes (events (scan_boxes image reference (b :: rest) g))
  = b :: aligned_boxes (events (scan_boxes image reference rest g)).
Proof.
  intros Hq. cbn [scan_boxes]. rewrite value_bind, events_bind. cbn.
  destruct (aligned_face_align image b) as [aligned|] eqn:Ha;
    [|split; reflexivity].
  cbn.
  destruct (float_gt (fr_recognize_face aligned reference) MATCH_THRESHOLD)
    eqn:Hs; [|split; reflexivity].
  exfalso. apply Hq. exists aligned.
  split; assumption.
Qed.

(** What the scan decides, and which boxes it looks at: it stops at the
    first box that qualifies, after aligning every box before it. *)
Lemma scan_boxes_spec image reference boxes g :
  (value (scan_boxes image reference boxes g) = true /\
   exists skipped winner rest,
     boxes = skipped ++ winner :: rest /\
     Forall (fun b => ~ qualifies image reference b) skipped /\
     qualifies image reference winner /\
     aligned_boxes (events (scan_boxes image reference boxes g))
     = skipped ++ [winner])
  \/
  (value (scan_boxes image reference boxes g) = false /\
   Forall (fun b => ~ qualifies image reference b) boxes /\
   aligned_boxes (events (scan_boxes image reference boxes g)) = boxes).
Proof.
  induction boxes as [|b rest IH].
  - right. split; [reflexivity|]. split; [constructor | reflexivity].
  - destruct (qualifies_dec image reference b) as [Hq|Hq].
    + left. destruct (scan_boxes_hit image reference b rest g Hq) as [Hv Ht].
      split; [exact Hv|].
      exists [], b, rest. rewrite Ht.
      split; [reflexivity|]. split; [constructor|].
      split; [exact Hq | reflexivity].
    + destruct (scan_boxes_miss image reference b rest g Hq) as [Hv Ht].
      rewrite Hv, Ht.
      destruct IH as [[Htrue (skipped & winner & rest' & E & Hs & Hw & Ha)]
                     |[Hfalse [Hall Ha]]].
      * left. split; [exact Htrue|].
        exists (b :: skipped), winner, rest'. subst rest.
        split; [reflexivity|]. split; [constructor; assumption|].
        split; [exact Hw|]. cbn. now rewrite Ha.
      * right. split; [exact Hfalse|].
        split; [constructor; assumption | now rewrite Ha].
Qed.

(** The scan only calls the face engine. *)
Lemma scan_boxes_quiet image reference boxes g :
  alert_calls (events (scan_boxes image reference boxes g)) = [] /\
  telemetry_calls (events (scan_boxes image reference boxes g)) = [] /\
  http_requests (events (scan_boxes image reference boxes g)) = [] /\
  delays (events (scan_boxes image reference boxes g)) = [] /\
  attemptCount_stores (events (scan_boxes image reference boxes g)) = [].
Proof.
  induction boxes as [|b rest IH]; [repeat split|].
  cbn [scan_boxes]. rewrite events_bind. cbn.
  destruct (aligned_face_align image b) as [aligned|]; [|exact IH].
  cbn. destruct (float_gt _ _); [repeat split | exact IH].
Qed.

(** ** Reading a trace that is put together from pieces *)

(** Every reader is a [flat_map]: it distributes over the pieces of a
    trace and computes on the pieces that are written out. *)
Ltac readers :=
  unfold alerts, aligned_boxes, recognize_scores, alert_calls,
    telemetry_calls, http_requests, delays, attemptCount_stores in *;
  rewrite ?flat_map_app; cbn [flat_map app].

(** ** Lines 228-242 *)

Lemma loop_recognize_final e image net_boxes detected g :
  final (loop_recognize e image net_boxes detected g) = g.
Proof.
  unfold loop_recognize. rewrite final_bind. cbn.
  destruct detected, (authorized_face g), net_boxes; try reflexivity.
  rewrite final_bind. cbn.
  destruct (aligned_face_alloc e); [|reflexivity].
  rewrite final_bind. cbn. apply scan_boxes_final.
Qed.

Lemma loop_recognize_quiet e image net_boxes detected g :
  alert_calls (events (loop_recognize e image net_boxes detected g)) = [] /\
  telemetry_calls (events (loop_recognize e image net_boxes detected g)) = []
  /\
  http_requests (events (loop_recognize e image net_boxes detected g)) = [] /\
  delays (events (loop_recognize e image net_boxes detected g)) = [] /\
  attemptCount_stores (events (loop_recognize e image net_boxes detected g))
  = [].
Proof.
  unfold loop_recognize. rewrite events_bind. cbn.
  destruct detected, (authorized_face g) as [reference|],
    net_boxes as [boxes|]; try (repeat split; reflexivity).
  rewrite events_bind. cbn.
  destruct (aligned_face_alloc e); [|repeat split; reflexivity].
  rewrite events_bind. cbn.
  destruct (scan_boxes_quiet image reference boxes g)
    as (H1 & H2 & H3 & H4 & H5).
  readers. rewrite H1, H2, H3, H4, H5.
  repeat split; reflexivity.
Qed.

(** With a reference, a buffer and at least one box, the block is the
    scan. *)
Lemma loop_recognize_scan e image boxes g reference buffer :
  authorized_face g = Some reference ->
  aligned_face_alloc e = Some buffer ->
  boxes <> [] ->
  value (loop_recognize e image (Some boxes) (any_face (Some boxes)) g)
  = value (scan_boxes image reference boxes g) /\
  aligned_boxes
    (events (loop_recognize e image (Some boxes) (any_face (Some boxes)) g))
  = aligned_boxes (events (scan_boxes image reference boxes g)) /\
  recognize_scores
    (events (loop_recognize e image (Some boxes) (any_face (Some boxes)) g))
  = recognize_scores (events (scan_boxes image reference boxes g)).
Proof.
  intros Href Hbuf Hne.
  assert (Hany : any_face (Some boxes) = true).
  { destruct boxes; [congruence | reflexivity]. }
  rewrite Hany. unfold loop_recognize.
  rewrite value_bind, events_bind. cbn. rewrite Href.
  rewrite value_bind, events_bind. cbn. rewrite Hbuf.
  rewrite value_bind, events_bind. cbn.
  readers. rewrite !app_nil_r.
  repeat split; reflexivity.
Qed.

(** Without a reference, without a face, or without a buffer, the block
    answers false and the engine is not asked to align or to score. *)
Lemma loop_recognize_idle e image net_boxes g :
  authorized_face g = None \/ any_face net_boxes = false \/
  aligned_face_alloc e = None ->
  value (loop_recognize e image net_boxes (any_face net_boxes) g) = false /\
  aligned_boxes
    (events (loop_recognize e image net_boxes (any_face net_boxes) g)) = [] /\
  recognize_scores
    (events (loop_recognize e image net_boxes (any_face net_boxes) g)) = [].
Proof.
  intros H. unfold loop_recognize. rewrite value_bind, events_bind. cbn.
  destruct (any_face net_boxes) eqn:Hany, (authorized_face g) as [reference|],
    net_boxes as [boxes|];
    try (repeat split; reflexivity).
  rewrite value_bind, events_bind. cbn.
  destruct (aligned_face_alloc e); [|repeat split; reflexivity].
  destruct H as [H|[H|H]]; discriminate.
Qed.

(** ** [sendEmailAlert] and [sendToThingSpeak] *)

(** The alert touches no global and is one call, whatever the mail
    transport answers. *)
Lemma sendEmailAlert_run e g :
  final (sendEmailAlert e g) = g /\
  value (sendEmailAlert e g) = smtp_connect e && MailClient_sendMail e /\
  alert_calls (events (sendEmailAlert e g)) = [tt] /\
  aligned_boxes (events (sendEmailAlert e g)) = [] /\
  recognize_scores (events (sendEmailAlert e g)) = [] /\
  telemetry_calls (events (sendEmailAlert e g)) = [] /\
  http_requests (events (sendEmailAlert e g)) = [] /\
  delays (events (sendEmailAlert e g)) = [] /\
  attemptCount_stores (events (sendEmailAlert e g)) = [].
Proof.
  unfold sendEmailAlert.
  destruct (smtp_connect e), (MailClient_sendMail e); cbn;
    repeat split; reflexivity.
Qed.

Lemma sendToThingSpeak_run e lat lng a i g :
  final (sendToThingSpeak e lat lng a i g) = g /\
  telemetry_calls (events (sendToThingSpeak e lat lng a i g))
  = [(lat, lng, a, i)] /\
  alert_calls (events (sendToThingSpeak e lat lng a i g)) = [] /\
  aligned_boxes (events (sendToThingSpeak e lat lng a i g)) = [] /\
  recognize_scores (events (sendToThingSpeak e lat lng a i g)) = [] /\
  delays (events (sendToThingSpeak e lat lng a i g)) = [] /\
  attemptCount_stores (events (sendToThingSpeak e lat lng a i g)) = [].
Proof.
  unfold sendToThingSpeak.
  destruct (wl_status_eqb (WiFi_status e) WL_CONNECTED),
    (0 <? http_GET e); cbn; repeat split; reflexivity.
Qed.

Lemma wl_status_eqb_eq a b : wl_status_eqb a b = true <-> a = b.
Proof. destruct a, b; cbn; split; congruence. Qed.

(** Without WiFi the call logs one line and returns. *)
Lemma sendToThingSpeak_offline e lat lng a i g :
  WiFi_status e <> WL_CONNECTED ->
  events (sendToThingSpeak e lat lng a i g)
  = [E_sendToThingSpeak lat lng a i;
     E_Serial_println "WiFi disconnected, skip ThingSpeak"].
Proof.
  intros H. unfold sendToThingSpeak.
  destruct (wl_status_eqb (WiFi_status e) WL_CONNECTED) eqn:E.
  - apply wl_status_eqb_eq in E. contradiction.
  - reflexivity.
Qed.

(** With WiFi the request goes out, with the alert in [field3] and the
    access status in [field4]. *)
Lemma sendToThingSpeak_online e lat lng a i g :
  WiFi_status e = WL_CONNECTED ->
  http_requests (events (sendToThingSpeak e lat lng a i g))
  = [{| api_key := THINGSPEAK_API_KEY;
        field1 := lat; field2 := lng; field3 := i; field4 := a |}].
Proof.
  intros H. unfold sendToThingSpeak. rewrite H.
  destruct (0 <? http_GET e); reflexivity.
Qed.

(** ** Lines 244-271 *)

Lemma loop_decide_granted e g :
  value (loop_decide e true g) = (1, 0) /\
  final (loop_decide e true g)
  = {| authorized_face := authorized_face g; attemptCount := 0 |} /\
  alert_calls (events (loop_decide e true g)) = [] /\
  attemptCount_stores (events (loop_decide e true g)) = [0] /\
  delays (events (loop_decide e true g)) = [].
Proof. repeat split; reflexivity. Qed.

(** The denial: the counter goes up by one; at [MAX_ATTEMPTS] the alert
    is sent once and the counter is cleared. *)
Lemma loop_decide_denied e g :
  authorized_face (final (loop_decide e false g)) = authorized_face g /\
  delays (events (loop_decide e false g)) = [500] /\
  if MAX_ATTEMPTS <=? Int.incr (attemptCount g) then
    value (loop_decide e false g) = (0, 1) /\
    attemptCount (final (loop_decide e false g)) = 0 /\
    alert_calls (events (loop_decide e false g)) = [tt] /\
    attemptCount_stores (events (loop_decide e false g))
    = [Int.incr (attemptCount g); 0]
  else
    value (loop_decide e false g) = (0, 0) /\
    attemptCount (final (loop_decide e false g)) = Int.incr (attemptCount g)
    /\
    alert_calls (events (loop_decide e false g)) = [] /\
    attemptCount_stores (events (loop_decide e false g))
    = [Int.incr (attemptCount g)].
Proof.
  unfold loop_decide. cbn -[Int.incr Z.leb].
  destruct (MAX_ATTEMPTS <=? Int.incr (attemptCount g)) eqn:E;
    cbn -[Int.incr Z.leb].
  - destruct (smtp_connect e), (MailClient_sendMail e); cbn -[Int.incr];
      repeat split; reflexivity.
  - repeat split; reflexivity.
Qed.

(** The block calls neither the face engine nor the telemetry. *)
Lemma loop_decide_quiet e recognized g :
  aligned_boxes (events (loop_decide e recognized g)) = [] /\
  recognize_scores (events (loop_decide e recognized g)) = [] /\
  telemetry_calls (events (loop_decide e recognized g)) = [] /\
  http_requests (events (loop_decide e recognized g)) = [].
Proof.
  unfold loop_decide. destruct recognized; [repeat split; reflexivity|].
  cbn -[Int.incr Z.leb].
  destruct (MAX_ATTEMPTS <=? Int.incr (attemptCount g));
    cbn -[Int.incr Z.leb]; [|repeat split; reflexivity].
  destruct (smtp_connect e), (MailClient_sendMail e); cbn -[Int.incr];
    repeat split; reflexivity.
Qed.

(** At [MAX_ATTEMPTS] the alert is sent first and the counter cleared
    after it, as the last thing the block does. *)
Lemma loop_decide_alert_then_reset e g :
  (MAX_ATTEMPTS <=? Int.incr (attemptCount g)) = true ->
  exists before mail,
    events (loop_decide e false g)
    = before ++ E_sendEmailAlert :: mail ++ [E_store_attemptCount 0].
Proof.
  intros H. unfold loop_decide. cbn -[Int.incr Z.leb]. rewrite H.
  eexists [_; _; _; _; _; _; _; _; _; _].
  destruct (smtp_connect e) eqn:Hc;
    [destruct (MailClient_sendMail e) eqn:Hs|].
  - exists [E_smtp_connect alert_session; E_sendMail alert_message].
    unfold sendEmailAlert. cbn -[Int.incr]. rewrite Hc. cbn -[Int.incr].
    rewrite Hs. reflexivity.
  - exists [E_smtp_connect alert_session; E_sendMail alert_message;
            E_Serial_println "Email send failed"].
    unfold sendEmailAlert. cbn -[Int.incr]. rewrite Hc. cbn -[Int.incr].
    rewrite Hs. reflexivity.
  - exists [E_smtp_connect alert_session;
            E_Serial_println "SMTP connect failed"].
    unfold sendEmailAlert. cbn -[Int.incr]. rewrite Hc. reflexivity.
Qed.

(** ** [loop], piece by piece *)

Lemma loop_no_frame e g :
  esp_camera_fb_get e = None ->
  loop e g
  = (None, g,
     [E_esp_camera_fb_get; E_Serial_println "Camera capture failed";
      E_delay 500]).
Proof. intros H. unfold loop. cbn. rewrite H. reflexivity. Qed.

Lemma loop_no_matrix e g fb :
  esp_camera_fb_get e = Some fb ->
  dl_matrix3du_alloc e = None ->
  loop e g
  = (None, g,
     [E_esp_camera_fb_get; E_dl_matrix3du_alloc 1 (width fb) (height fb) 3;
      E_Serial_println "dl_matrix3du_alloc failed"; E_esp_camera_fb_return;
      E_delay 200]).
Proof. intros H1 H2. unfold loop. cbn. rewrite H1. cbn. rewrite H2. reflexivity. Qed.

Lemma cycle_image_None e :
  cycle_image e = None <->
  esp_camera_fb_get e = None \/ dl_matrix3du_alloc e = None.
Proof.
  unfold cycle_image.
  destruct (esp_camera_fb_get e), (dl_matrix3du_alloc e); split;
    try discriminate; try tauto; intros [H|H]; discriminate.
Qed.

(** A pass that has its image runs the match, the decision, the
    telemetry, the release and the delay, in this order. *)
Lemma loop_anatomy e g image :
  cycle_image e = Some image ->
  exists fb,
    esp_camera_fb_get e = Some fb /\
    value (loop e g)
    = Some
        {| face_detected := any_face (face_detect image);
           face_recognized :=
             value (loop_recognize e image (face_detect image)
                      (any_face (face_detect image)) g);
           accessStatus :=
             fst (value (loop_decide e
                    (value (loop_recognize e image (face_detect image)
                              (any_face (face_detect image)) g)) g));
           intruderAlert :=
             snd (value (loop_decide e
                    (value (loop_recognize e image (face_detect image)
                              (any_face (face_detect image)) g)) g)) |} /\
    final (loop e g)
    = final (loop_decide e
               (value (loop_recognize e image (face_detect image)
                         (any_face (face_detect image)) g)) g) /\
    events (loop e g)
    = [E_esp_camera_fb_get; E_dl_matrix3du_alloc 1 (width fb) (height fb) 3;
       E_fmt2rgb888; E_face_detect]
      ++ events (loop_recognize e image (face_detect image)
                   (any_face (face_detect image)) g)
      ++ events (loop_decide e
                   (value (loop_recognize e image (face_detect image)
                             (any_face (face_detect image)) g)) g)
      ++ events (sendToThingSpeak e dummyLat dummyLng
                   (fst (value (loop_decide e
                      (value (loop_recognize e image (face_detect image)
                                (any_face (face_detect image)) g)) g)))
                   (snd (value (loop_decide e
                      (value (loop_recognize e image (face_detect image)
                                (any_face (face_detect image)) g)) g)))
                   (final (loop_decide e
                      (value (loop_recognize e image (face_detect image)
                                (any_face (face_detect image)) g)) g)))
      ++ events (match face_detect image with
                 | Some _ => free_boxes
                 | None => ret tt
                 end g)
      ++ [E_dl_matrix3du_free; E_esp_camera_fb_return; E_delay 2000].
Proof.
  unfold cycle_image, loop. intros H.
  destruct (esp_camera_fb_get e) as [fb|]; [|discriminate].
  destruct (dl_matrix3du_alloc e) as [fresh|]; [|discriminate].
  injection H as H. exists fb. split; [reflexivity|].
  rewrite H.
  change (match face_detect image with
          | Some boxes => 0 <? Z.of_nat (List.length boxes)
          | None => false
          end) with (any_face (face_detect image)).
  cbv beta iota zeta delta [bind value final events emit delay ret fst snd].
  pose proof (loop_recognize_final e image (face_detect image)
                (any_face (face_detect image)) g) as Hg.
  destruct (loop_recognize e image (face_detect image)
              (any_face (face_detect image)) g) as [[recognized g1] t1].
  cbn in Hg. subst g1.
  destruct (loop_decide e recognized g) as [[[a i] g2] t2].
  destruct (sendToThingSpeak_run e dummyLat dummyLng a i g2) as [Hs _].
  destruct (sendToThingSpeak e dummyLat dummyLng a i g2) as [[u g3] t3].
  cbn in Hs. subst g3.
  destruct (face_detect image); cbn; repeat split;
    rewrite <- ?app_assoc; reflexivity.
Qed.

(** What each reader sees in the trace of such a pass. *)
Lemma loop_reading e g image :
  cycle_image e = Some image ->
  let r1 := loop_recognize e image (face_detect image)
              (any_face (face_detect image)) g in
  let r2 := loop_decide e (value r1) g in
  let r3 := sendToThingSpeak e dummyLat dummyLng (fst (value r2))
              (snd (value r2)) (final r2) in
  aligned_boxes (events (loop e g)) = aligned_boxes (events r1) /\
  recognize_scores (events (loop e g)) = recognize_scores (events r1) /\
  alert_calls (events (loop e g)) = alert_calls (events r2) /\
  attemptCount_stores (events (loop e g)) = attemptCount_stores (events r2)
  /\
  telemetry_calls (events (loop e g))
  = [(dummyLat, dummyLng, fst (value r2), snd (value r2))] /\
  delays (events (loop e g)) = delays (events r2) ++ [2000] /\
  http_requests (events (loop e g)) = http_requests (events r3).
Proof.
  intros H r1 r2 r3.
  destruct (loop_anatomy e g image H) as (fb & _ & _ & _ & Hev).
  fold r1 in Hev. fold r2 in Hev. fold r3 in Hev. rewrite Hev.
  destruct (loop_recognize_quiet e image (face_detect image)
              (any_face (face_detect image)) g)
    as (Q1 & Q2 & Q3 & Q4 & Q5).
  fold r1 in Q1, Q2, Q3, Q4, Q5.
  destruct (loop_decide_quiet e (value r1) g) as (D1 & D2 & D3 & D4).
  fold r2 in D1, D2, D3, D4.
  destruct (sendToThingSpeak_run e dummyLat dummyLng (fst (value r2))
              (snd (value r2)) (final r2))
    as (_ & S1 & S2 & S3 & S4 & S5 & S6).
  fold r3 in S1, S2, S3, S4, S5, S6.
  assert (F : forall A (f : event -> list A),
             (forall member, f (E_dl_lib_free member) = []) ->
             flat_map f (events (match face_detect image with
                                 | Some _ => free_boxes
                                 | None => ret tt
                                 end g)) = []).
  { intros A f Hf. destruct (face_detect image); cbn; [|reflexivity].
    now rewrite !Hf. }
  readers.
  rewrite Q1, Q2, Q3, Q4, Q5, D1, D2, D3, D4, S1, S2, S3, S4, S5, S6.
  rewrite !F by reflexivity.
  cbn [app]. rewrite ?app_nil_r.
  repeat split; reflexivity.
Qed.

(** A pass makes a decision exactly when it has its image. *)
Lemma loop_decides e g image :
  cycle_image e = Some image ->
  decision (value (loop e g))
  = Some (decision_of
            (value (loop_recognize e image (face_detect image)
                      (any_face (face_detect image)) g))).
Proof.
  intros H. destruct (loop_anatomy e g image H) as (fb & _ & Hv & _).
  rewrite Hv. reflexivity.
Qed.

Lemma loop_skips e g :
  cycle_image e = None ->
  value (loop e g) = None /\
  final (loop e g) = g /\
  aligned_boxes (events (loop e g)) = [] /\
  recognize_scores (events (loop e g)) = [] /\
  alert_calls (events (loop e g)) = [] /\
  attemptCount_stores (events (loop e g)) = [] /\
  telemetry_calls (events (loop e g)) = [] /\
  http_requests (events (loop e g)) = [].
Proof.
  intros H. apply cycle_image_None in H.
  destruct (esp_camera_fb_get e) as [fb|] eqn:Hfb.
  - destruct H as [H|H]; [discriminate|].
    rewrite (loop_no_matrix e g fb Hfb H). repeat split; reflexivity.
  - rewrite (loop_no_frame e g Hfb). repeat split; reflexivity.
Qed.

(** [loop] never writes [authorized_face]. *)
Lemma loop_keeps_reference e g :
  authorized_face (final (loop e g)) = authorized_face g.
Proof.
  destruct (cycle_image e) as [image|] eqn:H.
  - destruct (loop_anatomy e g image H) as (fb & _ & _ & Hf & _).
    rewrite Hf.
    destruct (value (loop_recognize e image (face_detect image)
                       (any_face (face_detect image)) g)).
    + reflexivity.
    + apply loop_decide_denied.
  - destruct (loop_skips e g H) as (_ & Hf & _). now rewrite Hf.
Qed.

Lemma reachable_keeps_reference g0 g :
  reachable g0 g -> authorized_face g = authorized_face g0.
Proof.
  induction 1 as [|g e _ IH]; [reflexivity|].
  now rewrite loop_keeps_reference.
Qed.

(** Without a reference no pass recognizes a face or asks the engine to
    align or to score. *)
Lemma loop_without_reference e g :
  authorized_face g = None ->
  decision (value (loop e g)) <> Some Granted /\
  (cycle_image e <> None -> decision (value (loop e g)) = Some Denied) /\
  aligned_boxes (events (loop e g)) = [] /\
  recognize_scores (events (loop e g)) = [].
Proof.
  intros Hnone.
  destruct (cycle_image e) as [image|] eqn:H.
  - destruct (loop_recognize_idle e image (face_detect image) g
                (or_introl Hnone)) as (Hv & Ha & Hs).
    destruct (loop_reading e g image H) as (Ra & Rs & _).
    rewrite (loop_decides e g image H), Hv, Ra, Rs, Ha, Hs. cbn.
    repeat split; congruence.
  - destruct (loop_skips e g H) as (Hv & _ & Ha & Hs & _).
    rewrite Hv, Ha, Hs. cbn. repeat split; congruence.
Qed.

(** ** [loadAuthorizedFace] *)

(** Either every step succeeds, the buffer for the aligned face
    included, and the first detected face is installed; or the call
    answers false and the reference is null, if it was on entry. *)
Lemma loadAuthorizedFace_cases b g :
  (value (loadAuthorizedFace b g) = true /\
   exists image box0 face buffer,
     enrollment_steps b image box0 face /\
     boot_aligned_face_alloc b = Some buffer /\
     authorized_face (final (loadAuthorizedFace b g)) = Some face)
  \/
  (value (loadAuthorizedFace b g) = false /\
   (authorized_face g = None ->
    authorized_face (final (loadAuthorizedFace b g)) = None) /\
   ~ (exists image box0 face buffer,
        enrollment_steps b image box0 face /\
        boot_aligned_face_alloc b = Some buffer)).
Proof.
  unfold loadAuthorizedFace, enrollment_steps.
  destruct (SD_open b) as [file|] eqn:Hopen; cbn.
  2:{ right. split; [reflexivity|]. split; [tauto|].
      intros (? & ? & ? & ? & (? & ? & ? & ? & _) & _). discriminate. }
  destruct (boot_malloc b) eqn:Hmalloc; cbn.
  2:{ right. split; [reflexivity|]. split; [tauto|].
      intros (? & ? & ? & ? & (? & ? & ? & ? & ? & _) & _). discriminate. }
  destruct (boot_dl_matrix3du_alloc b) as [raster|] eqn:Hraster; cbn.
  2:{ right. split; [reflexivity|]. split; [tauto|].
      intros (? & ? & ? & ? & (? & ? & ? & ? & ? & ? & _) & _). discriminate. }
  destruct (fmt2rgb888 (file_bytes file) (file_size file) PIXFORMAT_JPEG)
    as [image|] eqn:Hdecode; cbn.
  2:{ right. split; [reflexivity|]. split; [tauto|].
      intros (? & ? & ? & ? & (f & ? & ? & Ef & ? & ? & Ed & _) & _).
      injection Ef as <-. congruence. }
  destruct (face_detect image) as [[|box0 rest]|] eqn:Hdetect; cbn.
  1,3: right; (split; [reflexivity|]); (split; [tauto|]);
    intros (im & ? & ? & ? & (f & ? & ? & Ef & ? & ? & Ed & Eb & _) & _);
    injection Ef as <-; rewrite Hdecode in Ed; injection Ed as <-;
    congruence.
  destruct (boot_aligned_face_alloc b) as [buffer|] eqn:Hbuf; cbn.
  2:{ right. split; [reflexivity|]. split; [tauto|].
      intros (? & ? & ? & ? & _ & ?). discriminate. }
  destruct (aligned_face_align image box0) as [face|] eqn:Halign; cbn.
  - left. split; [reflexivity|].
    exists image, box0, face, buffer.
    split; [|split; reflexivity].
    exists file, raster, rest. repeat split; assumption.
  - right. split; [reflexivity|]. split; [tauto|].
    intros (im & b0 & ? & ? & (f & ? & ? & Ef & ? & ? & Ed & Eb & Ea) & _).
    injection Ef as <-. rewrite Hdecode in Ed. injection Ed as <-.
    rewrite Hdetect in Eb. injection Eb as <- <-. congruence.
Qed.

(** ** The match evaluator *)

(** One turn of the scan, by what the aligner and the scorer answer. *)
Lemma scan_boxes_cons image reference b rest g :
  match aligned_face_align image b with
  | Some aligned =>
      if float_gt (fr_recognize_face aligned reference) MATCH_THRESHOLD then
        value (scan_boxes image reference (b :: rest) g) = true /\
        aligned_boxes (events (scan_boxes image reference (b :: rest) g))
        = [b] /\
        recognize_scores (events (scan_boxes image reference (b :: rest) g))
        = [fr_recognize_face aligned reference]
      else
        value (scan_boxes image reference (b :: rest) g)
        = value (scan_boxes image reference rest g) /\
        aligned_boxes (events (scan_boxes image reference (b :: rest) g))
        = b :: aligned_boxes (events (scan_boxes image reference rest g)) /\
        recognize_scores (events (scan_boxes image reference (b :: rest) g))
        = fr_recognize_face aligned reference
          :: recognize_scores (events (scan_boxes image reference rest g))
  | None =>
      value (scan_boxes image reference (b :: rest) g)
      = value (scan_boxes image reference rest g) /\
      aligned_boxes (events (scan_boxes image reference (b :: rest) g))
      = b :: aligned_boxes (events (scan_boxes image reference rest g)) /\
      recognize_scores (events (scan_boxes image reference (b :: rest) g))
      = recognize_scores (events (scan_boxes image reference rest g))
  end.
Proof.
  cbn [scan_boxes]. rewrite value_bind, events_bind. cbn.
  destruct (aligned_face_align image b) as [aligned|];
    [|repeat split; reflexivity].
  cbn.
  destruct (float_gt (fr_recognize_face aligned reference) MATCH_THRESHOLD);
    repeat split; reflexivity.
Qed.

(** A box that does not align, or whose score is at most the threshold,
    does not qualify. *)
Lemma skipped_not_qualifies image reference b :
  aligned_face_align image b = None \/
  (exists aligned,
     aligned_face_align image b = Some aligned /\
     float_le (fr_recognize_face aligned reference) MATCH_THRESHOLD = true) ->
  ~ qualifies image reference b.
Proof.
  intros [Hnone|(aligned & Ha & Hle)] (a & Ea & Hgt).
  - congruence.
  - rewrite Ha in Ea. injection Ea as <-.
    apply float_le_not_gt in Hle. congruence.
Qed.

(** C1.  Take a pass that has its image.  When the reference face is
    loaded and the detection result is not empty, access is granted if
    and only if some candidate matches in the pass: the scan, in
    detection order, hands it to the aligner, it aligns, and its score
    is strictly above 0.6, the [0.6f] of line 234.  When access is
    granted, the boxes handed to the aligner are the boxes up to the
    first one that qualifies, none of the skipped ones qualifying; a
    candidate that fails alignment or scores at most 0.6 does not
    qualify.  When the buffer for the aligned face is there, every
    detected box is a candidate: access is granted if and only if some
    detected box qualifies, and a denial has tried them all.  For
    detections [A; B] scored 0.55 and 0.9 in the pass, access is granted
    through B, after A; so it is when A and B align with these scores
    and the buffer is there.  And access is denied when no candidate
    qualifies, the reference is absent, or the detection result is
    empty. *)
Theorem first_match_wins e g image :
  cycle_image e = Some image ->
  (forall reference boxes,
     authorized_face g = Some reference ->
     face_detect image = Some boxes ->
     boxes <> [] ->
     (decision (value (loop e g)) = Some Granted <->
      exists b,
        In b boxes /\ matches_in (events (loop e g)) image reference b) /\
     (decision (value (loop e g)) = Some Granted ->
      exists skipped winner rest,
        boxes = skipped ++ winner :: rest /\
        Forall (fun b => ~ qualifies image reference b) skipped /\
        qualifies image reference winner /\
        aligned_boxes (events (loop e g)) = skipped ++ [winner]) /\
     (forall b,
        aligned_face_align image b = None \/
        (exists aligned,
           aligned_face_align image b = Some aligned /\
           float_le (fr_recognize_face aligned reference) MATCH_THRESHOLD
           = true) ->
        ~ qualifies image reference b) /\
     (forall buffer,
        aligned_face_alloc e = Some buffer ->
        (decision (value (loop e g)) = Some Granted <->
         exists b, In b boxes /\ qualifies image reference b) /\
        (decision (value (loop e g)) = Some Denied ->
         aligned_boxes (events (loop e g)) = boxes))) /\
  (forall reference A B,
     authorized_face g = Some reference ->
     face_detect image = Some [A; B] ->
     recognize_scores (events (loop e g)) = [score_0_55; score_0_9] ->
     decision (value (loop e g)) = Some Granted /\
     aligned_boxes (events (loop e g)) = [A; B] /\
     ~ qualifies image reference A /\
     qualifies image reference B) /\
  (forall reference A B alignedA alignedB buffer,
     authorized_face g = Some reference ->
     face_detect image = Some [A; B] ->
     aligned_face_alloc e = Some buffer ->
     aligned_face_align image A = Some alignedA ->
     fr_recognize_face alignedA reference = score_0_55 ->
     aligned_face_align image B = Some alignedB ->
     fr_recognize_face alignedB reference = score_0_9 ->
     decision (value (loop e g)) = Some Granted /\
     aligned_boxes (events (loop e g)) = [A; B] /\
     recognize_scores (events (loop e g)) = [score_0_55; score_0_9]) /\
  (authorized_face g = None \/
   face_detect image = None \/
   face_detect image = Some [] \/
   (exists reference boxes,
      authorized_face g = Some reference /\
      face_detect image = Some boxes /\
      Forall (fun b => ~ qualifies image reference b) boxes) ->
   decision (value (loop e g)) = Some Denied).
Proof.
  intros Himage.
  pose proof (loop_decides e g image Himage) as Hdec.
  destruct (loop_reading e g image Himage) as (Hboxes & Hscores & _).
  assert (Hscan : forall reference boxes buffer,
    authorized_face g = Some reference ->
    face_detect image = Some boxes ->
    boxes <> [] ->
    aligned_face_alloc e = Some buffer ->
    decision (value (loop e g))
    = Some (decision_of (value (scan_boxes image reference boxes g))) /\
    aligned_boxes (events (loop e g))
    = aligned_boxes (events (scan_boxes image reference boxes g)) /\
    recognize_scores (events (loop e g))
    = recognize_scores (events (scan_boxes image reference boxes g))).
  { intros reference boxes buffer Href Hdet Hne Hbuf.
    rewrite Hdec, Hboxes, Hscores, Hdet.
    destruct (loop_recognize_scan e image boxes g reference buffer
                Href Hbuf Hne) as (Hv & Ha & Hs).
    now rewrite Hv, Ha, Hs. }
  assert (Hidle : aligned_face_alloc e = None ->
    decision (value (loop e g)) = Some Denied /\
    aligned_boxes (events (loop e g)) = [] /\
    recognize_scores (events (loop e g)) = []).
  { intros Hbuf. rewrite Hdec, Hboxes, Hscores.
    destruct (loop_recognize_idle e image (face_detect image) g
                (or_intror (or_intror Hbuf))) as (Hv & Ha & Hs).
    now rewrite Hv, Ha, Hs. }
  split; [|split; [|split]].
  - intros reference boxes Href Hdet Hne.
    assert (Hwith : forall buffer,
      aligned_face_alloc e = Some buffer ->
      (decision (value (loop e g)) = Some Granted <->
       exists b,
         In b boxes /\ matches_in (events (loop e g)) image reference b) /\
      (decision (value (loop e g)) = Some Granted ->
       exists skipped winner rest,
         boxes = skipped ++ winner :: rest /\
         Forall (fun b => ~ qualifies image reference b) skipped /\
         qualifies image reference winner /\
         aligned_boxes (events (loop e g)) = skipped ++ [winner]) /\
      (decision (value (loop e g)) = Some Granted <->
       exists b, In b boxes /\ qualifies image reference b) /\
      (decision (value (loop e g)) = Some Denied ->
       aligned_boxes (events (loop e g)) = boxes)).
    { intros buffer Hbuf. unfold matches_in.
      destruct (Hscan reference boxes buffer Href Hdet Hne Hbuf)
        as (Hd & Ha & _).
      rewrite Hd, Ha.
      destruct (scan_boxes_spec image reference boxes g)
        as [[Hv (skipped & winner & rest & E & Hs & Hw & Ht)]
           |[Hv [Hall Ht]]];
        rewrite Hv; cbn.
      - split; [|split; [|split]].
        + split; [|reflexivity]. intros _. exists winner.
          split; [subst boxes; apply in_elt|].
          split; [|exact Hw]. rewrite Ht. apply in_elt.
        + intros _. exists skipped, winner, rest.
          split; [exact E|]. split; [exact Hs|].
          split; [exact Hw | exact Ht].
        + split; [|reflexivity]. intros _. exists winner.
          split; [subst boxes; apply in_elt | exact Hw].
        + discriminate.
      - rewrite Forall_forall in Hall.
        split; [|split; [|split]].
        + split; [discriminate|]. intros (b & Hin & _ & Hq).
          exfalso. exact (Hall b Hin Hq).
        + discriminate.
        + split; [discriminate|]. intros (b & Hin & Hq).
          exfalso. exact (Hall b Hin Hq).
        + intros _. exact Ht. }
    split; [|split; [|split]].
    + destruct (aligned_face_alloc e) as [buffer|] eqn:Hbuf.
      * apply (Hwith buffer eq_refl).
      * destruct (Hidle eq_refl) as (Hd & Ha & _). rewrite Hd.
        split; [discriminate|]. unfold matches_in. rewrite Ha.
        intros (b & _ & [] & _).
    + destruct (aligned_face_alloc e) as [buffer|] eqn:Hbuf.
      * apply (Hwith buffer eq_refl).
      * destruct (Hidle eq_refl) as (Hd & _). rewrite Hd. discriminate.
    + intros b. apply skipped_not_qualifies.
    + intros buffer Hbuf.
      destruct (Hwith buffer Hbuf) as (_ & _ & Hiff & Hall).
      split; [exact Hiff | exact Hall].
  - intros reference A B Href Hdet Hrun.
    destruct (aligned_face_alloc e) as [buffer|] eqn:Hbuf.
    2:{ destruct (Hidle eq_refl) as (_ & _ & Hs). congruence. }
    assert (Hne : [A; B] <> []) by discriminate.
    destruct (Hscan reference [A; B] buffer Href Hdet Hne eq_refl)
      as (Hd & Ha & Hs).
    rewrite Hd, Ha. rewrite Hs in Hrun. clear Hd Ha Hs.
    pose proof (scan_boxes_cons image reference A [B] g) as HA.
    pose proof (scan_boxes_cons image reference B [] g) as HB.
    change (recognize_scores (events (scan_boxes image reference [] g)))
      with (@nil float) in HB.
    change (aligned_boxes (events (scan_boxes image reference [] g)))
      with (@nil box_t) in HB.
    destruct (aligned_face_align image A) as [alignedA|] eqn:EA.
    2:{ destruct HA as (_ & _ & HsA). rewrite HsA in Hrun.
        destruct (aligned_face_align image B) as [alignedB|].
        - destruct (float_gt (fr_recognize_face alignedB reference)
                      MATCH_THRESHOLD);
            destruct HB as (_ & _ & HsB); rewrite HsB in Hrun;
            discriminate.
        - destruct HB as (_ & _ & HsB). rewrite HsB in Hrun. discriminate. }
    destruct (float_gt (fr_recognize_face alignedA reference) MATCH_THRESHOLD)
      eqn:GA.
    { destruct HA as (_ & _ & HsA). rewrite HsA in Hrun. discriminate. }
    destruct HA as (HvA & HaA & HsA). rewrite HsA in Hrun.
    destruct (aligned_face_align image B) as [alignedB|] eqn:EB.
    2:{ destruct HB as (_ & _ & HsB). rewrite HsB in Hrun. discriminate. }
    assert (GB : float_gt (fr_recognize_face alignedB reference)
                   MATCH_THRESHOLD = true).
    { destruct (float_gt (fr_recognize_face alignedB reference)
                  MATCH_THRESHOLD) eqn:G; [reflexivity|].
      destruct HB as (_ & _ & HsB). rewrite HsB in Hrun.
      assert (E : fr_recognize_face alignedB reference = score_0_9)
        by congruence.
      rewrite E in G. discriminate G. }
    rewrite GB in HB. destruct HB as (HvB & HaB & _).
    rewrite HvA, HaA, HvB, HaB.
    split; [reflexivity|]. split; [reflexivity|].
    split.
    + intros (a & Ea & Hgt). rewrite EA in Ea. injection Ea as <-.
      congruence.
    + exists alignedB. split; [exact EB | exact GB].
  - intros reference A B alignedA alignedB buffer Href Hdet Hbuf
           EA HsA EB HsB.
    assert (Hne : [A; B] <> []) by discriminate.
    destruct (Hscan reference [A; B] buffer Href Hdet Hne Hbuf)
      as (Hd & Ha & Hs).
    rewrite Hd, Ha, Hs.
    pose proof (scan_boxes_cons image reference A [B] g) as HA.
    pose proof (scan_boxes_cons image reference B [] g) as HB.
    rewrite EA, HsA in HA. rewrite EB, HsB in HB.
    change (float_gt score_0_55 MATCH_THRESHOLD) with false in HA.
    change (float_gt score_0_9 MATCH_THRESHOLD) with true in HB.
    destruct HA as (HvA & HaA & HsA'). destruct HB as (HvB & HaB & HsB').
    rewrite HvA, HaA, HsA', HvB, HaB, HsB'.
    split; [reflexivity|]. split; reflexivity.
  - intros H.
    destruct H as [H|[H|[H|H]]].
    + rewrite Hdec.
      destruct (loop_recognize_idle e image (face_detect image) g
                  (or_introl H)) as [Hv _].
      now rewrite Hv.
    + rewrite Hdec.
      assert (Hany : any_face (face_detect image) = false)
        by now rewrite H.
      destruct (loop_recognize_idle e image (face_detect image) g
                  (or_intror (or_introl Hany))) as [Hv _].
      now rewrite Hv.
    + rewrite Hdec.
      assert (Hany : any_face (face_detect image) = false)
        by now rewrite H.
      destruct (loop_recognize_idle e image (face_detect image) g
                  (or_intror (or_introl Hany))) as [Hv _].
      now rewrite Hv.
    + destruct H as (reference & boxes & Href & Hdet & Hall).
      destruct (aligned_face_alloc e) as [buffer|] eqn:Hbuf.
      * rewrite Hdec.
        destruct boxes as [|b rest].
        { assert (Hany : any_face (face_detect image) = false)
            by now rewrite Hdet.
          destruct (loop_recognize_idle e image (face_detect image) g
                      (or_intror (or_introl Hany))) as [Hv _].
          now rewrite Hv. }
        assert (Hne : b :: rest <> []) by discriminate.
        rewrite Hdet.
        destruct (loop_recognize_scan e image (b :: rest) g reference buffer
                    Href Hbuf Hne) as (Hv & _).
        rewrite Hv.
        destruct (scan_boxes_spec image reference (b :: rest) g)
          as [[_ (skipped & winner & rest' & E & _ & Hw & _)]|[Hf _]].
        { exfalso. rewrite Forall_forall in Hall.
          apply (Hall winner); [|exact Hw]. rewrite E. apply in_elt. }
        now rewrite Hf.
      * apply (Hidle eq_refl).
Qed.

(** ** The attempt tracker *)

(** What a pass does to the counter, by its decision. *)
Lemma loop_counter e g :
  (decision (value (loop e g)) = Some Granted ->
   attemptCount (final (loop e g)) = 0 /\
   alert_calls (events (loop e g)) = [] /\
   attemptCount_stores (events (loop e g)) = [0]) /\
  (decision (value (loop e g)) = Some Denied ->
   if MAX_ATTEMPTS <=? Int.incr (attemptCount g) then
     attemptCount (final (loop e g)) = 0 /\
     alert_calls (events (loop e g)) = [tt] /\
     attemptCount_stores (events (loop e g))
     = [Int.incr (attemptCount g); 0]
   else
     attemptCount (final (loop e g)) = Int.incr (attemptCount g) /\
     alert_calls (events (loop e g)) = [] /\
     attemptCount_stores (events (loop e g)) = [Int.incr (attemptCount g)])
  /\
  (decision (value (loop e g)) = None ->
   attemptCount (final (loop e g)) = attemptCount g /\
   alert_calls (events (loop e g)) = [] /\
   attemptCount_stores (events (loop e g)) = []).
Proof.
  destruct (cycle_image e) as [image|] eqn:H.
  - destruct (loop_anatomy e g image H) as (fb & _ & _ & Hf & _).
    destruct (loop_reading e g image H) as (_ & _ & Ha & Hs & _).
    rewrite (loop_decides e g image H), Hf, Ha, Hs.
    destruct (value (loop_recognize e image (face_detect image)
                       (any_face (face_detect image)) g)); cbn [decision_of].
    + split; [|split]; [|discriminate|discriminate].
      intros _. repeat split; reflexivity.
    + split; [|split]; [discriminate| |discriminate].
      intros _. destruct (loop_decide_denied e g) as (_ & _ & Hd).
      destruct (MAX_ATTEMPTS <=? Int.incr (attemptCount g));
        destruct Hd as (_ & Hc & Hal & Hst); repeat split; assumption.
  - destruct (loop_skips e g H) as (Hv & Hf & _ & _ & Ha & Hs & _).
    rewrite Hv, Hf, Ha, Hs. cbn.
    split; [|split]; [discriminate|discriminate|].
    intros _. repeat split; reflexivity.
Qed.

(** The mail transport decides nothing: with other answers from it the
    pass ends in the same state, with the same locals and as many
    alerts. *)
Lemma loop_with_mail e g connect send :
  value (loop (with_mail e connect send) g) = value (loop e g) /\
  final (loop (with_mail e connect send) g) = final (loop e g) /\
  alerts (events (loop (with_mail e connect send) g))
  = alerts (events (loop e g)).
Proof.
  assert (Hrec : forall image net_boxes detected,
            loop_recognize (with_mail e connect send) image net_boxes detected g
            = loop_recognize e image net_boxes detected g) by reflexivity.
  assert (Hdecide : forall recognized,
            value (loop_decide (with_mail e connect send) recognized g)
            = value (loop_decide e recognized g) /\
            final (loop_decide (with_mail e connect send) recognized g)
            = final (loop_decide e recognized g) /\
            alert_calls
              (events (loop_decide (with_mail e connect send) recognized g))
            = alert_calls (events (loop_decide e recognized g))).
  { intros [|]; [repeat split; reflexivity|].
    unfold loop_decide. cbn -[Int.incr Z.leb].
    destruct (MAX_ATTEMPTS <=? Int.incr (attemptCount g));
      cbn -[Int.incr Z.leb]; [|repeat split; reflexivity].
    destruct connect, send, (smtp_connect e), (MailClient_sendMail e);
      repeat split; reflexivity. }
  destruct (cycle_image e) as [image|] eqn:H.
  - assert (H' : cycle_image (with_mail e connect send) = Some image)
      by exact H.
    destruct (loop_anatomy e g image H) as (fb & _ & Hv & Hf & _).
    destruct (loop_anatomy _ g image H') as (fb' & _ & Hv' & Hf' & _).
    destruct (loop_reading e g image H) as (_ & _ & Ha & _).
    destruct (loop_reading _ g image H') as (_ & _ & Ha' & _).
    unfold alerts. rewrite Hv, Hf, Ha, Hv', Hf', Ha', !Hrec.
    destruct (Hdecide
                (value (loop_recognize e image (face_detect image)
                          (any_face (face_detect image)) g)))
      as (E1 & E2 & E3).
    rewrite E1, E2, E3. repeat split; reflexivity.
  - assert (H' : cycle_image (with_mail e connect send) = None) by exact H.
    destruct (loop_skips e g H) as (Hv & Hf & _ & _ & Ha & _).
    destruct (loop_skips _ g H') as (Hv' & Hf' & _ & _ & Ha' & _).
    unfold alerts. rewrite Hv, Hf, Ha, Hv', Hf', Ha'.
    repeat split; reflexivity.
Qed.

Lemma app_splice {A} (l0 t1 before mail rest : list A) (x y : A) :
  l0 ++ t1 ++ (before ++ x :: mail ++ [y]) ++ rest
  = (l0 ++ (t1 ++ before)) ++ x :: mail ++ y :: rest.
Proof.
  rewrite <- !app_assoc. cbn [app]. rewrite <- app_assoc. reflexivity.
Qed.

Lemma loop_alert_then_reset e g :
  decision (value (loop e g)) = Some Denied ->
  (MAX_ATTEMPTS <=? Int.incr (attemptCount g)) = true ->
  exists before mail after,
    events (loop e g)
    = before ++ E_sendEmailAlert :: mail ++ E_store_attemptCount 0 :: after.
Proof.
  intros Hd Hmax.
  destruct (cycle_image e) as [image|] eqn:H.
  - destruct (loop_anatomy e g image H) as (fb & _ & _ & _ & Hev).
    rewrite (loop_decides e g image H) in Hd.
    destruct (value (loop_recognize e image (face_detect image)
                       (any_face (face_detect image)) g));
      [discriminate|].
    destruct (loop_decide_alert_then_reset e g Hmax) as (before & mail & Hr).
    rewrite Hr in Hev.
    match type of Hev with
    | _ = ?l0 ++ ?t1 ++ _ ++ ?rest =>
        exists (l0 ++ (t1 ++ before)), mail, rest
    end.
    rewrite Hev. apply app_splice.
  - destruct (loop_skips e g H) as (Hv & _). rewrite Hv in Hd. discriminate.
Qed.

(** C2.  Whatever the counter holds before a pass (any [int] below the
    largest, where [++] is defined), a granted pass leaves it at 0 and
    sends no alert; a denied pass adds 1, and when the sum is at least
    [MAX_ATTEMPTS] it sends exactly one alert and after it stores 0; below
    [MAX_ATTEMPTS] it sends none and keeps the sum.  The answers of the
    mail transport, on which the result of [sendEmailAlert] depends,
    change neither the state the pass ends in nor the number of
    alerts. *)
Theorem attempt_counter_transitions e g :
  Int.min_int <= attemptCount g < Int.max_int ->
  (decision (value (loop e g)) = Some Granted ->
   attemptCount (final (loop e g)) = 0 /\
   alerts (events (loop e g)) = 0%nat) /\
  (decision (value (loop e g)) = Some Denied ->
   (MAX_ATTEMPTS <= attemptCount g + 1 ->
    alerts (events (loop e g)) = 1%nat /\
    attemptCount_stores (events (loop e g)) = [attemptCount g + 1; 0] /\
    attemptCount (final (loop e g)) = 0 /\
    exists before mail after,
      events (loop e g)
      = before ++ E_sendEmailAlert :: mail ++ E_store_attemptCount 0 :: after)
   /\
   (attemptCount g + 1 < MAX_ATTEMPTS ->
    alerts (events (loop e g)) = 0%nat /\
    attemptCount_stores (events (loop e g)) = [attemptCount g + 1] /\
    attemptCount (final (loop e g)) = attemptCount g + 1)) /\
  (forall connect send,
     value (sendEmailAlert (with_mail e connect send) g) = connect && send /\
     final (loop (with_mail e connect send) g) = final (loop e g) /\
     alerts (events (loop (with_mail e connect send) g))
     = alerts (events (loop e g))).
Proof.
  intros Hrange.
  destruct (loop_counter e g) as (Hgranted & Hdenied & _).
  rewrite (int_incr_succ _ Hrange) in Hdenied.
  split; [|split].
  - intros H. destruct (Hgranted H) as (Hc & Ha & _).
    unfold alerts. rewrite Ha. split; [exact Hc | reflexivity].
  - intros H. specialize (Hdenied H). unfold alerts.
    pose proof (loop_alert_then_reset e g H) as Horder.
    rewrite (int_incr_succ _ Hrange) in Horder.
    destruct (Z.leb_spec MAX_ATTEMPTS (attemptCount g + 1));
      destruct Hdenied as (Hc & Ha & Hs); rewrite Ha, Hs, Hc;
      split; intros; try lia.
    + split; [reflexivity|]. split; [reflexivity|].
      split; [reflexivity|]. apply Horder. reflexivity.
    + repeat split; reflexivity.
  - intros connect send.
    destruct (loop_with_mail e g connect send) as (_ & Hf & Ha).
    destruct (sendEmailAlert_run (with_mail e connect send) g)
      as (_ & Hv & _).
    rewrite Hv. split; [reflexivity|]. split; assumption.
Qed.

(** One pass from a counter within [0, MAX_ATTEMPTS): every value stored
    to the counter is within [0, MAX_ATTEMPTS], a pass that stores
    [MAX_ATTEMPTS] ends with 0, and the counter is below [MAX_ATTEMPTS]
    again at the end. *)
Lemma loop_counter_bounded e g :
  0 <= attemptCount g < MAX_ATTEMPTS ->
  Forall (fun v => 0 <= v <= MAX_ATTEMPTS)
         (attemptCount_stores (events (loop e g))) /\
  (In MAX_ATTEMPTS (attemptCount_stores (events (loop e g))) ->
   attemptCount (final (loop e g)) = 0) /\
  0 <= attemptCount (final (loop e g)) < MAX_ATTEMPTS.
Proof.
  unfold MAX_ATTEMPTS. intros Hc.
  assert (Hincr : Int.incr (attemptCount g) = attemptCount g + 1).
  { apply int_incr_succ. unfold Int.min_int, Int.max_int. lia. }
  destruct (loop_counter e g) as (Hgranted & Hdenied & Hskip).
  rewrite Hincr in Hdenied. unfold MAX_ATTEMPTS in Hdenied.
  destruct (decision (value (loop e g))) as [[|]|].
  - destruct (Hgranted eq_refl) as (Hf & _ & Hs). rewrite Hf, Hs.
    split; [|split]; [|reflexivity|lia].
    repeat constructor; lia.
  - specialize (Hdenied eq_refl).
    destruct (Z.leb_spec 3 (attemptCount g + 1));
      destruct Hdenied as (Hf & _ & Hs); rewrite Hf, Hs.
    + split; [|split]; [|reflexivity|lia].
      repeat constructor; lia.
    + split; [|split]; [| |lia].
      * repeat constructor; lia.
      * intros [Hin|[]]. lia.
  - destruct (Hskip eq_refl) as (Hf & _ & Hs). rewrite Hf, Hs.
    split; [|split]; [constructor| |lia].
    intros [].
Qed.

(** C3.  From a start with the counter at 0, in every state the loop can
    reach between two passes the counter is within [0, MAX_ATTEMPTS),
    and during the next pass, whatever it meets, every value the counter
    takes is within [0, MAX_ATTEMPTS]; a pass in which it takes the
    value [MAX_ATTEMPTS] ends with the counter at 0. *)
Theorem attemptCount_bounded g0 g e :
  attemptCount g0 = 0 ->
  reachable g0 g ->
  0 <= attemptCount g < MAX_ATTEMPTS /\
  Forall (fun v => 0 <= v <= MAX_ATTEMPTS)
         (attemptCount g :: attemptCount_stores (events (loop e g))) /\
  (In MAX_ATTEMPTS (attemptCount_stores (events (loop e g))) ->
   attemptCount (final (loop e g)) = 0) /\
  0 <= attemptCount (final (loop e g)) < MAX_ATTEMPTS.
Proof.
  intros Hstart Hreach.
  assert (Hinv : 0 <= attemptCount g < MAX_ATTEMPTS).
  { induction Hreach as [|g e' _ IH].
    - rewrite Hstart. unfold MAX_ATTEMPTS. lia.
    - apply loop_counter_bounded. exact IH. }
  destruct (loop_counter_bounded e g Hinv) as (Hall & Hreset & Hend).
  split; [exact Hinv|]. split; [|split; assumption].
  constructor; [lia | exact Hall].
Qed.

(** ** Enrollment *)

(** C4.  When [loadAuthorizedFace], called from the initial globals as
    in [setup], answers false, then in every state the loop reaches
    afterwards the reference is null, and the next pass, whatever the
    camera and the detector give it, grants nothing, denies access
    whenever it gets to a decision, and asks the engine neither to
    align nor to score. *)
Theorem no_reference_always_denied b g e :
  value (loadAuthorizedFace b initial_globals) = false ->
  reachable (final (loadAuthorizedFace b initial_globals)) g ->
  authorized_face g = None /\
  decision (value (loop e g)) <> Some Granted /\
  (cycle_image e <> None -> decision (value (loop e g)) = Some Denied) /\
  aligned_boxes (events (loop e g)) = [] /\
  recognize_scores (events (loop e g)) = [].
Proof.
  intros Hfail Hreach.
  assert (Hnone : authorized_face g = None).
  { rewrite (reachable_keeps_reference _ _ Hreach).
    destruct (loadAuthorizedFace_cases b initial_globals)
      as [[Htrue _]|(_ & Hleft & _)]; [congruence|].
    apply Hleft. reflexivity. }
  split; [exact Hnone|]. apply loop_without_reference. exact Hnone.
Qed.



(** ** Telemetry *)

(** C6.  A pass that reaches a decision calls [sendToThingSpeak] exactly
    once, with the placeholder position, [accessStatus] 1 when access
    was granted and 0 when it was denied, and [intruderAlert] 1 when an
    alert was sent in this pass and 0 when none was; at most one alert
    is sent.  A pass that makes no decision makes no call, and those are
    the passes that got no frame or no image matrix. *)
Theorem telemetry_once_per_decision e g :
  (forall d,
     decision (value (loop e g)) = Some d ->
     telemetry_calls (events (loop e g))
     = [(dummyLat, dummyLng,
         match d with Granted => 1 | Denied => 0 end,
         Z.of_nat (alerts (events (loop e g))))] /\
     (alerts (events (loop e g)) <= 1)%nat) /\
  (decision (value (loop e g)) = None ->
   telemetry_calls (events (loop e g)) = []) /\
  (decision (value (loop e g)) = None <->
   esp_camera_fb_get e = None \/ dl_matrix3du_alloc e = None).
Proof.
  destruct (cycle_image e) as [image|] eqn:H.
  - destruct (loop_reading e g image H) as (_ & _ & Ha & _ & Ht & _).
    unfold alerts. rewrite (loop_decides e g image H), Ht, Ha.
    split; [|split].
    + intros d Hd. injection Hd as <-.
      destruct (value (loop_recognize e image (face_detect image)
                         (any_face (face_detect image)) g)).
      * cbn. split; [reflexivity | lia].
      * destruct (loop_decide_denied e g) as (_ & _ & Hd).
        destruct (MAX_ATTEMPTS <=? Int.incr (attemptCount g));
          destruct Hd as (Hv & _ & Hal & _); rewrite Hv, Hal; cbn;
          split; [reflexivity | lia | reflexivity | lia].
    + discriminate.
    + rewrite <- cycle_image_None, H. split; discriminate.
  - destruct (loop_skips e g H) as (Hv & _ & _ & _ & _ & _ & Ht & _).
    rewrite Hv, Ht. cbn.
    split; [|split].
    + discriminate.
    + reflexivity.
    + rewrite <- cycle_image_None. tauto.
Qed.

(** ** Empty detections *)

(** C7.  When the detector finds nothing in the image of a pass (a null
    pointer or an array of length 0), access is denied and the engine
    is asked neither to align nor to score. *)
Theorem empty_detection_denied e g image :
  cycle_image e = Some image ->
  face_detect image = None \/ face_detect image = Some [] ->
  decision (value (loop e g)) = Some Denied /\
  aligned_boxes (events (loop e g)) = [] /\
  recognize_scores (events (loop e g)) = [].
Proof.
  intros Himage Hempty.
  assert (Hany : any_face (face_detect image) = false).
  { destruct Hempty as [E|E]; now rewrite E. }
  destruct (loop_recognize_idle e image (face_detect image) g
              (or_intror (or_introl Hany))) as (Hv & Ha & Hs).
  destruct (loop_reading e g image Himage) as (Ra & Rs & _).
  rewrite (loop_decides e g image Himage), Hv, Ra, Rs, Ha, Hs.
  repeat split; reflexivity.
Qed.

(** ** The delay at the end of a pass *)

(** C8, amended.  Every pass ends with a delay: 500 ms when the camera
    hands out no frame, 200 ms when the image matrix cannot be
    allocated, 2000 ms when the pass reaches its end, after a decision
    (a denied pass has held the buzzer for 500 ms before).  The 2000 ms
    delay is run in the passes that reach a decision and in no other. *)
Theorem delay_on_every_exit e g :
  (exists before,
     events (loop e g)
     = before ++ [E_delay match esp_camera_fb_get e, dl_matrix3du_alloc e with
                          | None, _ => 500
                          | Some _, None => 200
                          | Some _, Some _ => 2000
                          end]) /\
  (esp_camera_fb_get e = None -> delays (events (loop e g)) = [500]) /\
  (esp_camera_fb_get e <> None -> dl_matrix3du_alloc e = None ->
   delays (events (loop e g)) = [200]) /\
  (forall d,
     decision (value (loop e g)) = Some d ->
     delays (events (loop e g))
     = match d with Granted => [2000] | Denied => [500; 2000] end) /\
  (In 2000 (delays (events (loop e g))) <->
   decision (value (loop e g)) <> None).
Proof.
  destruct (esp_camera_fb_get e) as [fb|] eqn:Hfb.
  - destruct (dl_matrix3du_alloc e) as [fresh|] eqn:Hm.
    + assert (H : exists image, cycle_image e = Some image).
      { unfold cycle_image. rewrite Hfb, Hm. eexists. reflexivity. }
      destruct H as [image H].
      destruct (loop_anatomy e g image H) as (fb' & _ & _ & _ & Hev).
      destruct (loop_reading e g image H) as (_ & _ & _ & _ & _ & Hd & _).
      rewrite (loop_decides e g image H), Hd.
      assert (Hdelays :
        delays (events (loop_decide e
                  (value (loop_recognize e image (face_detect image)
                            (any_face (face_detect image)) g)) g))
        = match decision_of
                  (value (loop_recognize e image (face_detect image)
                            (any_face (face_detect image)) g)) with
          | Granted => []
          | Denied => [500]
          end).
      { destruct (value (loop_recognize e image (face_detect image)
                           (any_face (face_detect image)) g)).
        - reflexivity.
        - apply loop_decide_denied. }
      rewrite Hdelays.
      split; [|split; [|split; [|split]]].
      * rewrite Hev. eexists. rewrite !app_assoc.
        change [E_dl_matrix3du_free; E_esp_camera_fb_return; E_delay 2000]
          with ([E_dl_matrix3du_free; E_esp_camera_fb_return]
                ++ [E_delay 2000]).
        rewrite app_assoc. reflexivity.
      * discriminate.
      * discriminate.
      * intros d Hd'. injection Hd' as <-.
        destruct (decision_of _); reflexivity.
      * split; [discriminate|]. intros _.
        apply in_or_app. right. left. reflexivity.
    + rewrite (loop_no_matrix e g fb Hfb Hm). cbn.
      split; [|split; [|split; [|split]]].
      * eexists [_; _; _; _]. reflexivity.
      * discriminate.
      * reflexivity.
      * discriminate.
      * split; [intros [H|[]]; discriminate | congruence].
  - rewrite (loop_no_frame e g Hfb). cbn.
    split; [|split; [|split; [|split]]].
    + eexists [_; _]. reflexivity.
    + reflexivity.
    + congruence.
    + discriminate.
    + split; [intros [H|[]]; discriminate | congruence].
Qed.

(** ** The buffer for the aligned face *)

(** The block of lines 244-271 and the telemetry do not look at the
    answer to [aligned_face_alloc]. *)
Lemma loop_decide_with_aligned_face_alloc e answer recognized g :
  loop_decide (with_aligned_face_alloc e answer) recognized g
  = loop_decide e recognized g.
Proof. reflexivity. Qed.

(** C9.  In a pass with the reference loaded and a face detected, when
    the buffer for the aligned face cannot be allocated no box is
    aligned or scored and access is denied; the counter goes up by one
    and, at [MAX_ATTEMPTS], the alert is sent and the counter cleared;
    the telemetry is called and the pass ends with the 2000 ms delay,
    not with the short delay of a skipped pass.  The pass ends as the
    same pass with the buffer allocated and no box qualifying: same
    locals, same globals, same alerts, same telemetry. *)
Theorem aligned_alloc_failure_is_denial e g image reference boxes :
  cycle_image e = Some image ->
  authorized_face g = Some reference ->
  face_detect image = Some boxes ->
  boxes <> [] ->
  aligned_face_alloc e = None ->
  Int.min_int <= attemptCount g < Int.max_int ->
  aligned_boxes (events (loop e g)) = [] /\
  recognize_scores (events (loop e g)) = [] /\
  decision (value (loop e g)) = Some Denied /\
  attemptCount (final (loop e g))
  = (if MAX_ATTEMPTS <=? attemptCount g + 1 then 0 else attemptCount g + 1)
  /\
  alerts (events (loop e g))
  = (if MAX_ATTEMPTS <=? attemptCount g + 1 then 1%nat else 0%nat) /\
  telemetry_calls (events (loop e g))
  = [(dummyLat, dummyLng, 0,
      if MAX_ATTEMPTS <=? attemptCount g + 1 then 1 else 0)] /\
  delays (events (loop e g)) = [500; 2000] /\
  (forall buffer,
     Forall (fun b => ~ qualifies image reference b) boxes ->
     value (loop (with_aligned_face_alloc e (Some buffer)) g)
     = value (loop e g) /\
     final (loop (with_aligned_face_alloc e (Some buffer)) g)
     = final (loop e g) /\
     alert_calls (events (loop (with_aligned_face_alloc e (Some buffer)) g))
     = alert_calls (events (loop e g)) /\
     telemetry_calls
       (events (loop (with_aligned_face_alloc e (Some buffer)) g))
     = telemetry_calls (events (loop e g))).
Proof.
  intros Himage Href Hdet Hne Hbuf Hrange.
  destruct (loop_recognize_idle e image (face_detect image) g
              (or_intror (or_intror Hbuf))) as (Hv & Ha & Hs).
  destruct (loop_anatomy e g image Himage) as (fb & _ & Hval & Hfin & _).
  destruct (loop_reading e g image Himage)
    as (Ra & Rs & Ral & _ & Rt & Rd & _).
  pose proof (loop_decides e g image Himage) as Hdec.
  rewrite Hv in Hval, Hfin, Ral, Rt, Rd, Hdec.
  destruct (loop_decide_denied e g) as (_ & Hd500 & Hcase).
  rewrite (int_incr_succ _ Hrange) in Hcase.
  split; [now rewrite Ra|]. split; [now rewrite Rs|].
  split; [exact Hdec|].
  unfold alerts. rewrite Hfin, Ral, Rt, Rd, Hd500.
  assert (Hrest :
    attemptCount (final (loop_decide e false g))
    = (if MAX_ATTEMPTS <=? attemptCount g + 1 then 0 else attemptCount g + 1)
    /\
    List.length (alert_calls (events (loop_decide e false g)))
    = (if MAX_ATTEMPTS <=? attemptCount g + 1 then 1%nat else 0%nat) /\
    [(dummyLat, dummyLng, fst (value (loop_decide e false g)),
      snd (value (loop_decide e false g)))]
    = [(dummyLat, dummyLng, 0,
        if MAX_ATTEMPTS <=? attemptCount g + 1 then 1 else 0)]).
  { destruct (MAX_ATTEMPTS <=? attemptCount g + 1);
      destruct Hcase as (Hvd & Hc & Hal & _); rewrite Hvd, Hc, Hal;
      repeat split; reflexivity. }
  destruct Hrest as (H1 & H2 & H3).
  split; [exact H1|]. split; [exact H2|]. split; [exact H3|].
  split; [reflexivity|].
  intros buffer Hall.
  set (e' := with_aligned_face_alloc e (Some buffer)).
  assert (Himage' : cycle_image e' = Some image) by exact Himage.
  assert (Hbuf' : aligned_face_alloc e' = Some buffer) by reflexivity.
  destruct (loop_anatomy e' g image Himage') as (fb' & _ & Hval' & Hfin' & _).
  destruct (loop_reading e' g image Himage') as (_ & _ & Ral' & _ & Rt' & _).
  assert (Hv' : value (loop_recognize e' image (face_detect image)
                         (any_face (face_detect image)) g) = false).
  { rewrite Hdet.
    destruct (loop_recognize_scan e' image boxes g reference buffer
                Href Hbuf' Hne) as (E & _).
    rewrite E.
    destruct (scan_boxes_spec image reference boxes g)
      as [[_ (skipped & winner & rest & Eb & _ & Hw & _)]|[Hf _]];
      [|exact Hf].
    exfalso. rewrite Forall_forall in Hall.
    apply (Hall winner); [|exact Hw]. rewrite Eb. apply in_elt. }
  rewrite Hv' in Hval', Hfin', Ral', Rt'.
  unfold e' in Hval', Hfin', Ral', Rt'.
  rewrite loop_decide_with_aligned_face_alloc in Hval', Hfin', Ral', Rt'.
  fold e' in Hval', Hfin', Ral', Rt'.
  rewrite Hval', Hfin', Ral', Rt', Hval.
  split; [reflexivity|]. split; [reflexivity|]. split; reflexivity.
Qed.

(** ** Telemetry without WiFi *)

(** C10.  When [WiFi.status()] is not [WL_CONNECTED], [sendToThingSpeak]
    logs one line and returns: no request is made.  A pass in that
    situation makes no request either, also when it reaches a decision
    and calls [sendToThingSpeak]. *)
Theorem telemetry_skipped_without_wifi e g :
  WiFi_status e <> WL_CONNECTED ->
  (forall lat lng a i g',
     sendToThingSpeak e lat lng a i g'
     = (tt, g',
        [E_sendToThingSpeak lat lng a i;
         E_Serial_println "WiFi disconnected, skip ThingSpeak"])) /\
  http_requests (events (loop e g)) = [] /\
  (forall d,
     decision (value (loop e g)) = Some d ->
     List.length (telemetry_calls (events (loop e g))) = 1%nat).
Proof.
  intros Hwifi.
  assert (Hcall : forall lat lng a i g',
            sendToThingSpeak e lat lng a i g'
            = (tt, g',
               [E_sendToThingSpeak lat lng a i;
                E_Serial_println "WiFi disconnected, skip ThingSpeak"])).
  { intros lat lng a i g'. unfold sendToThingSpeak.
    destruct (wl_status_eqb (WiFi_status e) WL_CONNECTED) eqn:E.
    - apply wl_status_eqb_eq in E. contradiction.
    - reflexivity. }
  split; [exact Hcall|].
  destruct (cycle_image e) as [image|] eqn:H.
  - destruct (loop_reading e g image H) as (_ & _ & _ & _ & Ht & _ & Hh).
    rewrite Hh, Ht, Hcall. split; [reflexivity|]. intros d _. reflexivity.
  - destruct (loop_skips e g H) as (Hv & _ & _ & _ & _ & _ & _ & Hh).
    rewrite Hh, Hv. split; [reflexivity|]. discriminate.
Qed.

End Properties.

(** * Runs on the bench *)

(** Three passes in a row with nothing in front of the camera: three
    denials, one alert, sent in the third pass, and the counter back at
    0. *)
Example three_empty_passes :
  let e := bench_cycle [0; 0] true true WL_CONNECTED in
  let '(passes, g) := run_cycles [e; e; e] (bench_enrolled 0) in
  map (fun p => decision (fst p)) passes
  = [Some Denied; Some Denied; Some Denied] /\
  map (fun p => alerts (snd p)) passes = [0; 0; 1]%nat /\
  attemptCount g = 0.
Proof. vm_compute. repeat split; reflexivity. Qed.

(** The card is missing: enrollment fails, and a pass with the enrolled
    face in front of the camera is denied. *)
Example missing_card_then_denied :
  let r := loadAuthorizedFace (bench_boot None true) initial_globals in
  value r = false /\
  decision (value (loop (bench_cycle [100] true true WL_CONNECTED) (final r)))
  = Some Denied.
Proof. vm_compute. split; reflexivity. Qed.

(** The comparison of line 234 at its edge: a candidate scoring exactly
    [0.6f] is denied, one scoring the next float is granted, and one
    whose score is a NaN is denied. *)
Example threshold_edge :
  let pass := fun pixel =>
    loop (bench_cycle [pixel] true true WL_CONNECTED) (bench_enrolled 0) in
  recognize_scores (events (pass 10066330)) = [MATCH_THRESHOLD] /\
  decision (value (pass 10066330)) = Some Denied /\
  decision (value (pass 10066331)) = Some Granted /\
  recognize_scores (events (pass (2 ^ 24))) = [F_nan] /\
  decision (value (pass (2 ^ 24))) = Some Denied.
Proof. vm_compute. repeat split; reflexivity. Qed.

Lemma first_match_wins_witness :
  let e := bench_cycle [9227469; 15099494] true true WL_CONNECTED in
  cycle_image e = Some [9227469; 15099494] /\
  recognize_scores (events (loop e (bench_enrolled 0)))
  = [score_0_55; score_0_9] /\
  decision (value (loop e (bench_enrolled 0))) = Some Granted /\
  aligned_boxes (events (loop e (bench_enrolled 0)))
  = [9227469; 15099494].
Proof.
  intros e. split; [reflexivity|].
  assert (Hrun : recognize_scores (events (loop e (bench_enrolled 0)))
                 = [score_0_55; score_0_9])
    by (vm_compute; reflexivity).
  split; [exact Hrun|].
  destruct (first_match_wins e (bench_enrolled 0) [9227469; 15099494]
              eq_refl) as (_ & Hexample & _).
  destruct (Hexample 100 9227469 15099494 eq_refl eq_refl Hrun)
    as (Hd & Ha & _).
  split; [exact Hd | exact Ha].
Defined.

Lemma attempt_counter_transitions_witness :
  let e := bench_cycle [7] true false WL_CONNECTED in
  let g := bench_enrolled 2 in
  Int.min_int <= attemptCount g < Int.max_int /\
  decision (value (loop e g)) = Some Denied /\
  alerts (events (loop e g)) = 1%nat /\
  attemptCount_stores (events (loop e g)) = [3; 0] /\
  attemptCount (final (loop e g)) = 0.
Proof.
  intros e g.
  assert (Hrange : Int.min_int <= attemptCount g < Int.max_int)
    by (vm_compute; split; [discriminate | reflexivity]).
  split; [exact Hrange|]. split; [reflexivity|].
  destruct (attempt_counter_transitions e g Hrange) as (_ & Hdenied & _).
  destruct (Hdenied eq_refl) as (Hmax & _).
  destruct Hmax as (H1 & H2 & H3 & _); [vm_compute; discriminate|].
  split; [exact H1|]. split; [exact H2 | exact H3].
Defined.

Lemma attemptCount_bounded_witness :
  let e := bench_cycle [7] true true WL_CONNECTED in
  let g0 := bench_enrolled 0 in
  let g := final (loop e (final (loop e g0))) in
  attemptCount g0 = 0 /\
  reachable g0 g /\
  attemptCount g = 2 /\
  Forall (fun v => 0 <= v <= MAX_ATTEMPTS)
         (attemptCount g :: attemptCount_stores (events (loop e g))) /\
  attemptCount (final (loop e g)) = 0.
Proof.
  intros e g0 g.
  assert (Hreach : reachable g0 g)
    by (apply reachable_cycle, reachable_cycle, reachable_start).
  split; [reflexivity|]. split; [exact Hreach|]. split; [reflexivity|].
  destruct (attemptCount_bounded g0 g e eq_refl Hreach)
    as (_ & Hall & Hreset & _).
  split; [exact Hall|].
  apply Hreset. left. reflexivity.
Defined.

Lemma no_reference_always_denied_witness :
  let b := bench_boot None true in
  let g := final (loadAuthorizedFace b initial_globals) in
  let e := bench_cycle [100] true true WL_CONNECTED in
  value (loadAuthorizedFace b initial_globals) = false /\
  decision (value (loop e (final (loop e g)))) = Some Denied /\
  aligned_boxes (events (loop e (final (loop e g)))) = [].
Proof.
  intros b g e. split; [reflexivity|].
  destruct (no_reference_always_denied b (final (loop e g)) e eq_refl)
    as (_ & _ & Hdenied & Hquiet & _).
  - apply reachable_cycle, reachable_start.
  - split; [|exact Hquiet]. apply Hdenied. discriminate.
Defined.


Lemma empty_detection_denied_witness :
  let e := bench_cycle [0; 0] true true WL_CONNECTED in
  cycle_image e = Some [0; 0] /\
  face_detect [0; 0] = None /\
  decision (value (loop e (bench_enrolled 1))) = Some Denied /\
  aligned_boxes (events (loop e (bench_enrolled 1))) = [] /\
  recognize_scores (events (loop e (bench_enrolled 1))) = [].
Proof.
  intros e. split; [reflexivity|]. split; [reflexivity|].
  apply (empty_detection_denied e (bench_enrolled 1) [0; 0] eq_refl).
  left. reflexivity.
Defined.

(** C8: the sentence as written fails on both early returns. *)
Lemma fixed_delay_as_stated_fails :
  ~ fixed_delay_as_stated bench_no_frame (bench_enrolled 0) /\
  ~ fixed_delay_as_stated bench_no_matrix (bench_enrolled 0).
Proof.
  unfold fixed_delay_as_stated. split; vm_compute; intros [H|[]]; discriminate.
Qed.

Lemma aligned_alloc_failure_is_denial_witness :
  let e := bench_cycle [100] false true WL_CONNECTED in
  let g := bench_enrolled 2 in
  cycle_image e = Some [100] /\
  aligned_face_alloc e = None /\
  decision (value (loop e g)) = Some Denied /\
  aligned_boxes (events (loop e g)) = [] /\
  attemptCount (final (loop e g)) = 0 /\
  alerts (events (loop e g)) = 1%nat.
Proof.
  intros e g. split; [reflexivity|]. split; [reflexivity|].
  assert (Hrange : Int.min_int <= attemptCount g < Int.max_int)
    by (vm_compute; split; [discriminate | reflexivity]).
  assert (Hne : [100] <> []) by discriminate.
  destruct (aligned_alloc_failure_is_denial e g [100] 100 [100]
              eq_refl eq_refl eq_refl Hne eq_refl Hrange)
    as (Ha & _ & Hd & Hc & Hal & _).
  split; [exact Hd|]. split; [exact Ha|]. split; [exact Hc | exact Hal].
Defined.

Lemma telemetry_skipped_without_wifi_witness :
  let e := bench_cycle [100] true true WL_DISCONNECTED in
  WiFi_status e <> WL_CONNECTED /\
  decision (value (loop e (bench_enrolled 0))) = Some Granted /\
  http_requests (events (loop e (bench_enrolled 0))) = [].
Proof.
  intros e.
  assert (Hwifi : WiFi_status e <> WL_CONNECTED) by discriminate.
  split; [exact Hwifi|]. split; [reflexivity|].
  apply (telemetry_skipped_without_wifi e (bench_enrolled 0) Hwifi).
Defined.

(** * Further properties *)

Section Further.

Context {engine : FaceEngine}.

(** ** The pieces of a trace, written out *)

Lemma scan_boxes_engine_calls image reference boxes g :
  Forall engine_call (events (scan_boxes image reference boxes g)).
Proof.
  induction boxes as [|b rest IH]; [constructor|].
  cbn [scan_boxes]. rewrite events_bind. cbn.
  constructor; [exact I|].
  destruct (aligned_face_align image b) as [aligned|]; [|exact IH].
  cbn. constructor; [exact I|].
  destruct (float_gt _ _); [constructor | exact IH].
Qed.

(** The trace of lines 228-242: nothing, or the allocation, and when it
    succeeds the scan and the release. *)
Lemma loop_recognize_events e image net_boxes g :
  events (loop_recognize e image net_boxes (any_face net_boxes) g)
  = match any_face net_boxes, authorized_face g, net_boxes with
    | true, Some reference, Some boxes =>
        E_aligned_face_alloc ::
        match aligned_face_alloc e with
        | Some _ =>
            events (scan_boxes image reference boxes g)
            ++ [E_aligned_face_free]
        | None => []
        end
    | _, _, _ => []
    end.
Proof.
  unfold loop_recognize. rewrite events_bind. cbn.
  destruct (any_face net_boxes), (authorized_face g), net_boxes;
    try reflexivity.
  rewrite events_bind. cbn.
  destruct (aligned_face_alloc e); reflexivity.
Qed.

Lemma sendEmailAlert_events e g :
  events (sendEmailAlert e g)
  = E_sendEmailAlert :: E_smtp_connect alert_session ::
    if smtp_connect e then
      E_sendMail alert_message ::
      if MailClient_sendMail e then []
      else [E_Serial_println "Email send failed"]
    else [E_Serial_println "SMTP connect failed"].
Proof.
  unfold sendEmailAlert.
  destruct (smtp_connect e), (MailClient_sendMail e); reflexivity.
Qed.

Lemma sendToThingSpeak_events e lat lng a i g :
  events (sendToThingSpeak e lat lng a i g)
  = E_sendToThingSpeak lat lng a i ::
    if wl_status_eqb (WiFi_status e) WL_CONNECTED then
      [E_http_GET {| api_key := THINGSPEAK_API_KEY;
                     field1 := lat; field2 := lng;
                     field3 := i; field4 := a |};
       E_Serial_printf (if 0 <? http_GET e
                        then "ThingSpeak update code: %d"
                        else "ThingSpeak failed: %s") (http_GET e);
       E_http_end]
    else [E_Serial_println "WiFi disconnected, skip ThingSpeak"].
Proof.
  unfold sendToThingSpeak.
  destruct (wl_status_eqb (WiFi_status e) WL_CONNECTED), (0 <? http_GET e);
    reflexivity.
Qed.

(** The trace of lines 244-271. *)
Lemma loop_decide_events e recognized g :
  events (loop_decide e recognized g)
  = if recognized then
      [E_lcd_clear; E_lcd_setCursor 0 0; E_lcd_print "Access Granted";
       E_store_attemptCount 0; E_Serial_println "Face recognized!"]
    else
      [E_lcd_clear; E_lcd_setCursor 0 0; E_lcd_print "Access Denied";
       E_lcd_setCursor 0 1; E_lcd_print "Not Allowed!";
       E_digitalWrite BUZZER_PIN true; E_delay 500;
       E_digitalWrite BUZZER_PIN false;
       E_store_attemptCount (Int.incr (attemptCount g));
       E_Serial_printf "No match - attempt: %d" (Int.incr (attemptCount g))]
      ++ if MAX_ATTEMPTS <=? Int.incr (attemptCount g) then
           events (sendEmailAlert e g) ++ [E_store_attemptCount 0]
         else [].
Proof.
  destruct recognized; [reflexivity|].
  unfold loop_decide, sendEmailAlert. cbn -[Int.incr Z.leb].
  destruct (MAX_ATTEMPTS <=? Int.incr (attemptCount g));
    cbn -[Int.incr Z.leb]; [|reflexivity].
  destruct (smtp_connect e), (MailClient_sendMail e); reflexivity.
Qed.

(** Each part of [loop] keeps to its calls. *)
Lemma loop_recognize_calls e image net_boxes g :
  Forall recognize_call
    (events (loop_recognize e image net_boxes (any_face net_boxes) g)).
Proof.
  rewrite loop_recognize_events.
  destruct (any_face net_boxes), (authorized_face g) as [reference|],
    net_boxes as [boxes|]; try constructor; [exact I|].
  destruct (aligned_face_alloc e); [|constructor].
  apply Forall_app. split; [|repeat constructor].
  eapply Forall_impl; [|apply scan_boxes_engine_calls].
  intros []; cbn; tauto.
Qed.

Lemma loop_decide_calls e recognized g :
  Forall decide_call (events (loop_decide e recognized g)).
Proof.
  rewrite loop_decide_events, sendEmailAlert_events.
  destruct recognized, (MAX_ATTEMPTS <=? Int.incr (attemptCount g)),
    (smtp_connect e), (MailClient_sendMail e);
    cbn -[Int.incr]; repeat constructor.
Qed.

Lemma sendToThingSpeak_calls e lat lng a i g :
  Forall telemetry_call (events (sendToThingSpeak e lat lng a i g)).
Proof.
  rewrite sendToThingSpeak_events.
  destruct (wl_status_eqb (WiFi_status e) WL_CONNECTED);
    repeat constructor.
Qed.

(** A reader that looks for other calls finds nothing in a part. *)
Lemma filter_outside (calls : event -> Prop) (p : event -> bool) t :
  Forall calls t ->
  (forall ev, calls ev -> p ev = false) ->
  filter p t = [].
Proof.
  intros Hall Hout. induction Hall as [|ev t Hev _ IH]; [reflexivity|].
  cbn. now rewrite (Hout ev Hev).
Qed.

Lemma flat_map_outside {A} (calls : event -> Prop) (f : event -> list A) t :
  Forall calls t ->
  (forall ev, calls ev -> f ev = []) ->
  flat_map f t = [].
Proof.
  intros Hall Hout. induction Hall as [|ev t Hev _ IH]; [reflexivity|].
  cbn. now rewrite (Hout ev Hev).
Qed.

Lemma filter_scan p image reference boxes g :
  (forall ev, engine_call ev -> p ev = false) ->
  filter p (events (scan_boxes image reference boxes g)) = [].
Proof. apply filter_outside, scan_boxes_engine_calls. Qed.

Lemma flat_map_scan {A} (f : event -> list A) image reference boxes g :
  (forall ev, engine_call ev -> f ev = []) ->
  flat_map f (events (scan_boxes image reference boxes g)) = [].
Proof. apply flat_map_outside, scan_boxes_engine_calls. Qed.

Lemma filter_recognize p e image net_boxes g :
  (forall ev, recognize_call ev -> p ev = false) ->
  filter p (events (loop_recognize e image net_boxes (any_face net_boxes) g))
  = [].
Proof. apply filter_outside, loop_recognize_calls. Qed.

Lemma flat_map_recognize {A} (f : event -> list A) e image net_boxes g :
  (forall ev, recognize_call ev -> f ev = []) ->
  flat_map f
    (events (loop_recognize e image net_boxes (any_face net_boxes) g)) = [].
Proof. apply flat_map_outside, loop_recognize_calls. Qed.

Lemma filter_decide p e recognized g :
  (forall ev, decide_call ev -> p ev = false) ->
  filter p (events (loop_decide e recognized g)) = [].
Proof. apply filter_outside, loop_decide_calls. Qed.

Lemma flat_map_decide {A} (f : event -> list A) e recognized g :
  (forall ev, decide_call ev -> f ev = []) ->
  flat_map f (events (loop_decide e recognized g)) = [].
Proof. apply flat_map_outside, loop_decide_calls. Qed.

Lemma filter_telemetry p e lat lng a i g :
  (forall ev, telemetry_call ev -> p ev = false) ->
  filter p (events (sendToThingSpeak e lat lng a i g)) = [].
Proof. apply filter_outside, sendToThingSpeak_calls. Qed.

Lemma flat_map_telemetry {A} (f : event -> list A) e lat lng a i g :
  (forall ev, telemetry_call ev -> f ev = []) ->
  flat_map f (events (sendToThingSpeak e lat lng a i g)) = [].
Proof. apply flat_map_outside, sendToThingSpeak_calls. Qed.

(** The side condition of those lemmas, by cases on the event. *)
Ltac outside := intros [] Hcall; try contradiction; reflexivity.

(** A reader on the trace of a pass: the parts that cannot hold what it
    looks for are dropped, the others are left to be read. *)
Ltac parts :=
  rewrite ?filter_app, ?flat_map_app;
  rewrite ?filter_recognize by outside;
  rewrite ?flat_map_recognize by outside;
  rewrite ?filter_decide by outside;
  rewrite ?flat_map_decide by outside;
  rewrite ?filter_telemetry by outside;
  rewrite ?flat_map_telemetry by outside;
  rewrite ?filter_scan by outside;
  rewrite ?flat_map_scan by outside.

(** The trace of a pass that has its image, with every piece but the
    scan written out. *)
Lemma loop_events e g image :
  cycle_image e = Some image ->
  exists fb,
    esp_camera_fb_get e = Some fb /\
    events (loop e g)
    = [E_esp_camera_fb_get; E_dl_matrix3du_alloc 1 (width fb) (height fb) 3;
       E_fmt2rgb888; E_face_detect]
      ++ events (loop_recognize e image (face_detect image)
                   (any_face (face_detect image)) g)
      ++ events (loop_decide e
                   (value (loop_recognize e image (face_detect image)
                             (any_face (face_detect image)) g)) g)
      ++ events (sendToThingSpeak e dummyLat dummyLng
                   (fst (value (loop_decide e
                      (value (loop_recognize e image (face_detect image)
                                (any_face (face_detect image)) g)) g)))
                   (snd (value (loop_decide e
                      (value (loop_recognize e image (face_detect image)
                                (any_face (face_detect image)) g)) g)))
                   g)
      ++ match face_detect image with
         | Some _ =>
             [E_dl_lib_free "score"; E_dl_lib_free "box";
              E_dl_lib_free "landmark"; E_dl_lib_free ""]
         | None => []
         end
      ++ [E_dl_matrix3du_free; E_esp_camera_fb_return; E_delay 2000].
Proof.
  intros H. destruct (loop_anatomy e g image H) as (fb & Hfb & _ & _ & Hev).
  exists fb. split; [exact Hfb|]. rewrite Hev.
  assert (Hany : forall lat lng a i g1 g2,
            events (sendToThingSpeak e lat lng a i g1)
            = events (sendToThingSpeak e lat lng a i g2)).
  { intros. now rewrite !sendToThingSpeak_events. }
  rewrite (Hany _ _ _ _ _ g).
  destruct (face_detect image); reflexivity.
Qed.

(** ** What a pass releases *)

(** The buffer for the aligned face is released when it was allocated. *)
Lemma loop_recognize_releases e image net_boxes g :
  List.length
    (filter is_aligned_face_free
       (events (loop_recognize e image net_boxes (any_face net_boxes) g)))
  = match aligned_face_alloc e with
    | Some _ =>
        List.length
          (filter is_aligned_face_alloc
             (events (loop_recognize e image net_boxes
                        (any_face net_boxes) g)))
    | None => 0%nat
    end /\
  (List.length
     (filter is_aligned_face_alloc
        (events (loop_recognize e image net_boxes (any_face net_boxes) g)))
   <= 1)%nat.
Proof.
  rewrite loop_recognize_events.
  destruct (any_face net_boxes), (authorized_face g) as [reference|],
    net_boxes as [boxes|], (aligned_face_alloc e) as [buffer|];
    cbn [filter is_aligned_face_free is_aligned_face_alloc];
    parts; cbn; split; (reflexivity || lia).
Qed.

(** X1.  What a pass releases: the frame is returned exactly once when
    one was captured, on the early return of line 215 too; the image
    matrix is freed exactly once when it was allocated; the buffer for
    the aligned face is asked for at most once and freed once when it
    was obtained; the box array and its three members are freed when
    the detector returned one, empty or not. *)
Theorem loop_releases e g :
  count is_fb_return (events (loop e g))
  = match esp_camera_fb_get e with Some _ => 1 | None => 0 end%nat /\
  count is_matrix_free (events (loop e g))
  = match cycle_image e with Some _ => 1 | None => 0 end%nat /\
  count is_aligned_face_free (events (loop e g))
  = match aligned_face_alloc e with
    | Some _ => count is_aligned_face_alloc (events (loop e g))
    | None => 0%nat
    end /\
  (count is_aligned_face_alloc (events (loop e g)) <= 1)%nat /\
  freed_members (events (loop e g))
  = match cycle_image e with
    | Some image =>
        match face_detect image with
        | Some _ => ["score"; "box"; "landmark"; ""]
        | None => []
        end
    | None => []
    end.
Proof.
  destruct (cycle_image e) as [image|] eqn:H.
  - destruct (loop_events e g image H) as (fb & Hfb & Hev).
    destruct (loop_recognize_releases e image (face_detect image) g)
      as [Hfree Hone].
    rewrite Hev, Hfb. unfold count, freed_members. parts.
    rewrite !length_app, Hfree.
    generalize dependent
      (List.length
         (filter is_aligned_face_alloc
            (events (loop_recognize e image (face_detect image)
                       (any_face (face_detect image)) g)))).
    intros n _ Hone.
    destruct (face_detect image), (aligned_face_alloc e); cbn;
      repeat split; try reflexivity; lia.
  - pose proof H as H'. apply cycle_image_None in H'.
    destruct (esp_camera_fb_get e) as [fb|] eqn:Hfb.
    + destruct H' as [H'|H']; [discriminate|].
      rewrite (loop_no_matrix e g fb Hfb H'). cbn.
      destruct (aligned_face_alloc e); repeat split; try reflexivity; lia.
    + rewrite (loop_no_frame e g Hfb). cbn.
      destruct (aligned_face_alloc e); repeat split; try reflexivity; lia.
Qed.
(** ** Display and buzzer *)

(** X5.  The buzzer is never left on: a denied pass drives the pin high,
    waits 500 ms and drives it low; a granted or skipped pass does not
    write to it. *)
Theorem buzzer_ends_low e g :
  buzzer_writes (events (loop e g))
  = match decision (value (loop e g)) with
    | Some Denied => [true; false]
    | _ => []
    end /\
  (decision (value (loop e g)) = Some Denied ->
   exists before after,
     events (loop e g)
     = before
       ++ [E_digitalWrite BUZZER_PIN true; E_delay 500;
           E_digitalWrite BUZZER_PIN false]
       ++ after).
Proof.
  destruct (cycle_image e) as [image|] eqn:H.
  - destruct (loop_events e g image H) as (fb & _ & Hev).
    rewrite (loop_decides e g image H), Hev. unfold buzzer_writes. parts.
    rewrite loop_decide_events.
    destruct (value (loop_recognize e image (face_detect image)
                       (any_face (face_detect image)) g)).
    + split; [|discriminate].
      destruct (face_detect image); reflexivity.
    + split.
      * rewrite flat_map_app, sendEmailAlert_events.
        destruct (face_detect image),
          (MAX_ATTEMPTS <=? Int.incr (attemptCount g)),
          (smtp_connect e), (MailClient_sendMail e); reflexivity.
      * intros _.
        match goal with
        | |- exists before after,
               ?l0 ++ ?t1 ++ (?d ++ ?dt) ++ ?rest = _ =>
            exists (l0 ++ t1 ++ firstn 5 d), (skipn 8 d ++ dt ++ rest)
        end.
        cbn [firstn skipn]. rewrite <- !app_assoc. reflexivity.
  - apply cycle_image_None in H.
    destruct (esp_camera_fb_get e) as [fb|] eqn:Hfb.
    + destruct H as [H|H]; [discriminate|].
      rewrite (loop_no_matrix e g fb Hfb H).
      split; [reflexivity | discriminate].
    + rewrite (loop_no_frame e g Hfb).
      split; [reflexivity | discriminate].
Qed.

(** X6.  The display follows the decision: "Access Granted" on a
    granted pass, "Access Denied" and "Not Allowed!" on a denied one,
    and nothing is printed on a skipped pass (nor by the alert or the
    telemetry). *)
Theorem display_shows_decision e g :
  lcd_prints (events (loop e g))
  = match decision (value (loop e g)) with
    | Some Granted => ["Access Granted"]
    | Some Denied => ["Access Denied"; "Not Allowed!"]
    | None => []
    end.
Proof.
  destruct (cycle_image e) as [image|] eqn:H.
  - destruct (loop_events e g image H) as (fb & _ & Hev).
    rewrite (loop_decides e g image H), Hev. unfold lcd_prints. parts.
    rewrite loop_decide_events.
    destruct (value (loop_recognize e image (face_detect image)
                       (any_face (face_detect image)) g)).
    + destruct (face_detect image); reflexivity.
    + rewrite flat_map_app, sendEmailAlert_events.
      destruct (face_detect image),
        (MAX_ATTEMPTS <=? Int.incr (attemptCount g)),
        (smtp_connect e), (MailClient_sendMail e); reflexivity.
  - apply cycle_image_None in H.
    destruct (esp_camera_fb_get e) as [fb|] eqn:Hfb.
    + destruct H as [H|H]; [discriminate|].
      now rewrite (loop_no_matrix e g fb Hfb H).
    + now rewrite (loop_no_frame e g Hfb).
Qed.

(** ** Skipped passes *)

(** X7.  A pass that gets no frame or no image matrix changes nothing:
    the globals are as before, so it does not count as a failed attempt;
    it decides nothing, stores nothing to the counter, sends no alert
    and no telemetry, leaves display and buzzer alone, and logs the one
    line that names the failure. *)
Theorem skipped_pass_is_inert e g :
  esp_camera_fb_get e = None \/ dl_matrix3du_alloc e = None ->
  final (loop e g) = g /\
  decision (value (loop e g)) = None /\
  attemptCount_stores (events (loop e g)) = [] /\
  alerts (events (loop e g)) = 0%nat /\
  telemetry_calls (events (loop e g)) = [] /\
  lcd_prints (events (loop e g)) = [] /\
  buzzer_writes (events (loop e g)) = [] /\
  aligned_boxes (events (loop e g)) = [] /\
  serial_lines (events (loop e g))
  = [match esp_camera_fb_get e with
     | None => "Camera capture failed"
     | Some _ => "dl_matrix3du_alloc failed"
     end].
Proof.
  intros H.
  destruct (esp_camera_fb_get e) as [fb|] eqn:Hfb.
  - destruct H as [H|H]; [discriminate|].
    rewrite (loop_no_matrix e g fb Hfb H). repeat split; reflexivity.
  - rewrite (loop_no_frame e g Hfb). repeat split; reflexivity.
Qed.
(** ** The network *)

(** X8.  With WiFi connected a pass that reaches a decision makes
    exactly one request: [field1] and [field2] carry the placeholder
    position, [field3] is 1 when an alert was sent in this pass and 0
    otherwise, [field4] is 1 when access was granted and 0 when it was
    denied; the connection is closed once. *)
Theorem telemetry_request_when_online e g d :
  WiFi_status e = WL_CONNECTED ->
  decision (value (loop e g)) = Some d ->
  http_requests (events (loop e g))
  = [{| api_key := THINGSPEAK_API_KEY;
        field1 := dummyLat;
        field2 := dummyLng;
        field3 := Z.of_nat (alerts (events (loop e g)));
        field4 := match d with Granted => 1 | Denied => 0 end |}] /\
  count is_http_end (events (loop e g)) = 1%nat.
Proof.
  intros Hwifi Hd.
  destruct (cycle_image e) as [image|] eqn:H.
  - destruct (loop_events e g image H) as (fb & _ & Hev).
    destruct (loop_reading e g image H) as (_ & _ & Ha & _ & _ & _ & Hh).
    rewrite (loop_decides e g image H) in Hd. injection Hd as <-.
    unfold alerts, count. rewrite Hh, Ha, Hev. parts.
    rewrite sendToThingSpeak_online by exact Hwifi.
    rewrite sendToThingSpeak_events, Hwifi.
    destruct (value (loop_recognize e image (face_detect image)
                       (any_face (face_detect image)) g)).
    + destruct (face_detect image); split; reflexivity.
    + destruct (loop_decide_denied e g) as (_ & _ & Hcase).
      destruct (MAX_ATTEMPTS <=? Int.incr (attemptCount g));
        destruct Hcase as (Hv & _ & Hal & _); rewrite Hv, Hal;
        destruct (face_detect image); split; reflexivity.
  - destruct (loop_skips e g H) as (Hv & _).
    rewrite Hv in Hd. discriminate.
Qed.

(** X9.  The network decides nothing: with any other WiFi state and any
    other HTTP code (success or failure of the request) a pass ends with
    the same locals and the same globals, stores the same values to the
    counter, sends the same alerts and calls the telemetry with the same
    arguments. *)
Theorem network_never_decides e g wifi code :
  value (loop (with_network e wifi code) g) = value (loop e g) /\
  final (loop (with_network e wifi code) g) = final (loop e g) /\
  alert_calls (events (loop (with_network e wifi code) g))
  = alert_calls (events (loop e g)) /\
  attemptCount_stores (events (loop (with_network e wifi code) g))
  = attemptCount_stores (events (loop e g)) /\
  telemetry_calls (events (loop (with_network e wifi code) g))
  = telemetry_calls (events (loop e g)).
Proof.
  assert (Hrec : forall image net_boxes detected,
            loop_recognize (with_network e wifi code) image net_boxes
              detected g
            = loop_recognize e image net_boxes detected g) by reflexivity.
  assert (Hdecide : forall recognized,
            loop_decide (with_network e wifi code) recognized g
            = loop_decide e recognized g) by reflexivity.
  destruct (cycle_image e) as [image|] eqn:H.
  - assert (H' : cycle_image (with_network e wifi code) = Some image)
      by exact H.
    destruct (loop_anatomy e g image H) as (fb & _ & Hv & Hf & _).
    destruct (loop_anatomy _ g image H') as (fb' & _ & Hv' & Hf' & _).
    destruct (loop_reading e g image H) as (_ & _ & Ha & Hs & Ht & _).
    destruct (loop_reading _ g image H') as (_ & _ & Ha' & Hs' & Ht' & _).
    rewrite Hv, Hf, Ha, Hs, Ht, Hv', Hf', Ha', Hs', Ht', !Hrec, !Hdecide.
    split; [reflexivity|]. split; [reflexivity|].
    split; [reflexivity|]. split; reflexivity.
  - assert (H' : cycle_image (with_network e wifi code) = None) by exact H.
    destruct (loop_skips e g H) as (Hv & Hf & _ & _ & Ha & Hs & Ht & _).
    destruct (loop_skips _ g H')
      as (Hv' & Hf' & _ & _ & Ha' & Hs' & Ht' & _).
    rewrite Hv, Hf, Ha, Hs, Ht, Hv', Hf', Ha', Hs', Ht'.
    split; [reflexivity|]. split; [reflexivity|].
    split; [reflexivity|]. split; reflexivity.
Qed.

(** ** Alerts *)

(** X10.  From a counter within [0, MAX_ATTEMPTS), a pass sends an alert
    exactly when it is denied and the counter held [MAX_ATTEMPTS - 1];
    it never sends more than one, and a pass that sent one ends with the
    counter at 0. *)
Theorem alert_exactly_at_third_denial e g :
  0 <= attemptCount g < MAX_ATTEMPTS ->
  (alerts (events (loop e g)) = 1%nat <->
   decision (value (loop e g)) = Some Denied /\
   attemptCount g = MAX_ATTEMPTS - 1) /\
  (alerts (events (loop e g)) <= 1)%nat /\
  (alerts (events (loop e g)) = 1%nat ->
   attemptCount (final (loop e g)) = 0).
Proof.
  unfold MAX_ATTEMPTS. intros Hc.
  assert (Hincr : Int.incr (attemptCount g) = attemptCount g + 1).
  { apply int_incr_succ. unfold Int.min_int, Int.max_int. lia. }
  destruct (loop_counter e g) as (Hgranted & Hdenied & Hskip).
  rewrite Hincr in Hdenied. unfold MAX_ATTEMPTS in Hdenied.
  unfold alerts.
  destruct (decision (value (loop e g))) as [[|]|].
  - destruct (Hgranted eq_refl) as (_ & Ha & _). rewrite Ha. cbn.
    split; [|split]; [|lia|discriminate].
    split; [discriminate | intros [? _]; discriminate].
  - specialize (Hdenied eq_refl).
    destruct (Z.leb_spec 3 (attemptCount g + 1));
      destruct Hdenied as (Hf & Ha & _); rewrite Ha; cbn.
    + split; [|split]; [|lia|intros _; exact Hf].
      split; [intros _; split; [reflexivity | lia] | reflexivity].
    + split; [|split]; [|lia|discriminate].
      split; [discriminate | intros [_ ?]; lia].
  - destruct (Hskip eq_refl) as (_ & Ha & _). rewrite Ha. cbn.
    split; [|split]; [|lia|discriminate].
    split; [discriminate | intros [? _]; discriminate].
Qed.

(** X11.  The mail of an alert: the mail server is contacted once per
    alert and never otherwise; the message is handed over when the
    connection succeeded and not when it failed, with no second try; a
    failed connection and a failed hand-over are each logged, in the
    passes that alert and in no other. *)
Theorem alert_mail e g :
  count is_smtp_connect (events (loop e g)) = alerts (events (loop e g)) /\
  mails_sent (events (loop e g))
  = (if smtp_connect e
     then repeat alert_message (alerts (events (loop e g)))
     else []) /\
  (In "SMTP connect failed" (serial_lines (events (loop e g))) <->
   alerts (events (loop e g)) = 1%nat /\ smtp_connect e = false) /\
  (In "Email send failed" (serial_lines (events (loop e g))) <->
   alerts (events (loop e g)) = 1%nat /\
   smtp_connect e = true /\ MailClient_sendMail e = false).
Proof.
  assert (Hin : forall (s : string) (l : list string) (P : Prop),
            (forallb (fun x => negb (String.eqb s x)) l = true) ->
            ~ P -> (In s l <-> P)).
  { intros s l P Hl HP. split; [|tauto]. intros Hs. exfalso.
    rewrite forallb_forall in Hl. specialize (Hl s Hs).
    rewrite String.eqb_refl in Hl. discriminate. }
  destruct (cycle_image e) as [image|] eqn:H.
  - destruct (loop_events e g image H) as (fb & _ & Hev).
    rewrite Hev.
    unfold alerts, alert_calls, count, mails_sent, serial_lines. parts.
    rewrite loop_decide_events, sendToThingSpeak_events.
    destruct (value (loop_recognize e image (face_detect image)
                       (any_face (face_detect image)) g)).
    + destruct (face_detect image), (smtp_connect e),
        (wl_status_eqb (WiFi_status e) WL_CONNECTED);
        (split; [reflexivity|]); (split; [reflexivity|]);
        split; apply Hin; try reflexivity; cbn; intros [? ?]; discriminate.
    + rewrite !filter_app, !flat_map_app, sendEmailAlert_events.
      destruct (face_detect image),
        (MAX_ATTEMPTS <=? Int.incr (attemptCount g)),
        (smtp_connect e), (MailClient_sendMail e),
        (wl_status_eqb (WiFi_status e) WL_CONNECTED);
        (split; [reflexivity|]); (split; [reflexivity|]);
        split;
        first [ apply Hin;
                [reflexivity
                |cbn; intros (? & ?); try discriminate;
                 intuition discriminate]
              | split; [intros _; cbn; repeat split; reflexivity
                       |intros _; cbn; tauto] ].
  - apply cycle_image_None in H.
    destruct (esp_camera_fb_get e) as [fb|] eqn:Hfb.
    + destruct H as [H|H]; [discriminate|].
      rewrite (loop_no_matrix e g fb Hfb H).
      destruct (smtp_connect e);
        (split; [reflexivity|]); (split; [reflexivity|]);
        split; apply Hin; try reflexivity; cbn; intros [? ?]; discriminate.
    + rewrite (loop_no_frame e g Hfb).
      destruct (smtp_connect e);
        (split; [reflexivity|]); (split; [reflexivity|]);
        split; apply Hin; try reflexivity; cbn; intros [? ?]; discriminate.
Qed.
(** ** Runs of several passes *)

Lemma run_cycles_cons e es g :
  run_cycles (e :: es) g
  = ((value (loop e g), events (loop e g))
       :: fst (run_cycles es (final (loop e g))),
     snd (run_cycles es (final (loop e g)))).
Proof.
  cbn [run_cycles].
  destruct (run_cycles es (final (loop e g))) as [rs g']. reflexivity.
Qed.

Lemma reachable_front e g g' :
  reachable (final (loop e g)) g' -> reachable g g'.
Proof.
  induction 1 as [|g1 e1 _ IH].
  - apply reachable_cycle, reachable_start.
  - apply reachable_cycle, IH.
Qed.

(** The states reachable from [g] are the states runs from [g] end
    in. *)
Theorem runs_reach g g' :
  reachable g g' <-> exists es, snd (run_cycles es g) = g'.
Proof.
  split.
  - induction 1 as [|g1 e _ [es IH]].
    + exists []. reflexivity.
    + exists (es ++ [e]). subst g1. clear.
      revert g. induction es as [|e0 es IH]; intros g.
      * cbn [app]. rewrite run_cycles_cons. reflexivity.
      * cbn [app]. rewrite !run_cycles_cons. cbn [snd]. apply IH.
  - intros [es <-]. revert g.
    induction es as [|e es IH]; intros g.
    + apply reachable_start.
    + rewrite run_cycles_cons. cbn [snd].
      apply (reachable_front e), IH.
Qed.

(** X14.  No run of passes, whatever the passes meet, changes the
    reference face: [loop] never writes [authorized_face].  A run
    yields one result per pass. *)
Theorem reference_is_kept es g :
  authorized_face (snd (run_cycles es g)) = authorized_face g /\
  List.length (fst (run_cycles es g)) = List.length es.
Proof.
  revert g. induction es as [|e es IH]; intros g; [split; reflexivity|].
  rewrite run_cycles_cons. cbn [fst snd List.length].
  destruct (IH (final (loop e g))) as [Ha Hl].
  rewrite Ha, Hl, loop_keeps_reference. split; reflexivity.
Qed.

(** X12.  Over a run in which no pass is granted, from a counter [c]
    within [0, MAX_ATTEMPTS): after [n] denied passes, skipped passes
    not counting, the counter is [(c + n) mod MAX_ATTEMPTS] and
    [(c + n) / MAX_ATTEMPTS] alerts were sent. *)
Theorem denials_count_modulo es g :
  0 <= attemptCount g < MAX_ATTEMPTS ->
  granted_passes (fst (run_cycles es g)) = 0%nat ->
  attemptCount (snd (run_cycles es g))
  = (attemptCount g + Z.of_nat (denied_passes (fst (run_cycles es g))))
    mod MAX_ATTEMPTS /\
  Z.of_nat (alerts_sent (fst (run_cycles es g)))
  = (attemptCount g + Z.of_nat (denied_passes (fst (run_cycles es g))))
    / MAX_ATTEMPTS.
Proof.
  unfold MAX_ATTEMPTS. revert g.
  induction es as [|e es IH]; intros g Hc Hnone.
  - cbn. rewrite Z.add_0_r, Z.mod_small, Z.div_small by lia.
    split; reflexivity.
  - rewrite run_cycles_cons in *. cbn [fst snd] in *.
    assert (Hincr : Int.incr (attemptCount g) = attemptCount g + 1).
    { apply int_incr_succ. unfold Int.min_int, Int.max_int. lia. }
    destruct (loop_counter e g) as (Hgranted & Hdenied & Hskip).
    rewrite Hincr in Hdenied. unfold MAX_ATTEMPTS in Hdenied.
    specialize (IH (final (loop e g))).
    unfold granted_passes, denied_passes, alerts_sent, alerts in *.
    cbn [filter map fst snd] in *.
    change (list_sum (?a :: ?m)) with (a + list_sum m)%nat.
    destruct (decision (value (loop e g))) as [[|]|].
    + cbn in Hnone. discriminate.
    + specialize (Hdenied eq_refl). cbn [List.length].
      destruct (Z.leb_spec 3 (attemptCount g + 1));
        destruct Hdenied as (Hf & Ha & _);
        (destruct IH as [IH1 IH2]; [rewrite Hf; lia | exact Hnone |]);
        rewrite Ha, IH1, Hf; rewrite Hf in IH2;
        cbn [List.length];
        rewrite Nat2Z.inj_add, IH2, Nat2Z.inj_succ;
        split; Z.div_mod_to_equations; lia.
    + destruct (Hskip eq_refl) as (Hf & Ha & _).
      destruct IH as [IH1 IH2]; [rewrite Hf; lia | exact Hnone |].
      rewrite Ha, IH1, Hf. rewrite Hf in IH2.
      cbn [List.length]. rewrite Nat2Z.inj_add, IH2.
      split; reflexivity.
Qed.

(** X13.  A granted pass clears the lockout whatever the counter held:
    it sends no alert, and neither do the two passes after it, denied
    or not. *)
Theorem granted_clears_lockout e e1 e2 g :
  decision (value (loop e g)) = Some Granted ->
  alerts (events (loop e g)) = 0%nat /\
  alerts (events (loop e1 (final (loop e g)))) = 0%nat /\
  alerts (events (loop e2 (final (loop e1 (final (loop e g)))))) = 0%nat.
Proof.
  intros Hg.
  destruct (loop_counter e g) as (Hgranted & _).
  destruct (Hgranted Hg) as (Hc & Ha & _).
  assert (Hstep : forall e' g', 0 <= attemptCount g' < 2 ->
            alerts (events (loop e' g')) = 0%nat /\
            0 <= attemptCount (final (loop e' g')) < attemptCount g' + 2).
  { intros e' g' Hr.
    assert (Hincr : Int.incr (attemptCount g') = attemptCount g' + 1).
    { apply int_incr_succ. unfold Int.min_int, Int.max_int. lia. }
    destruct (loop_counter e' g') as (Hgr & Hde & Hsk).
    rewrite Hincr in Hde. unfold MAX_ATTEMPTS in Hde. unfold alerts.
    destruct (decision (value (loop e' g'))) as [[|]|].
    - destruct (Hgr eq_refl) as (Hf & Hal & _). rewrite Hf, Hal.
      split; [reflexivity | lia].
    - specialize (Hde eq_refl).
      destruct (Z.leb_spec 3 (attemptCount g' + 1)); [lia|].
      destruct Hde as (Hf & Hal & _). rewrite Hf, Hal.
      split; [reflexivity | lia].
    - destruct (Hsk eq_refl) as (Hf & Hal & _). rewrite Hf, Hal.
      split; [reflexivity | lia]. }
  unfold alerts at 1. rewrite Ha. split; [reflexivity|].
  destruct (Hstep e1 (final (loop e g))) as [H1 Hr1]; [rewrite Hc; lia|].
  split; [exact H1|].
  rewrite Hc in Hr1.
  apply (Hstep e2). lia.
Qed.
(** ** The calls of the scan *)

Lemma scan_boxes_scanned image reference boxes g :
  aligned_boxes (events (scan_boxes image reference boxes g))
  = scanned image reference boxes /\
  recognize_scores (events (scan_boxes image reference boxes g))
  = scores_of image reference (scanned image reference boxes).
Proof.
  induction boxes as [|b rest [IHa IHs]]; [split; reflexivity|].
  cbn [scan_boxes scanned]. rewrite events_bind. cbn.
  destruct (aligned_face_align image b) as [aligned|] eqn:Ha.
  - cbn.
    destruct (float_gt (fr_recognize_face aligned reference) MATCH_THRESHOLD).
    + cbn. unfold scores_of. cbn. rewrite Ha. split; reflexivity.
    + unfold scores_of in *. cbn. rewrite Ha. cbn.
      unfold aligned_boxes, recognize_scores in *.
      now rewrite IHa, IHs.
  - unfold scores_of in *. cbn. rewrite Ha. cbn.
    unfold aligned_boxes, recognize_scores in *.
    now rewrite IHa, IHs.
Qed.

Lemma scanned_prefix image reference boxes :
  exists rest, boxes = scanned image reference boxes ++ rest.
Proof.
  induction boxes as [|b boxes [rest IH]]; [exists []; reflexivity|].
  cbn [scanned].
  destruct (aligned_face_align image b) as [aligned|].
  - destruct (float_gt _ _).
    + exists boxes. reflexivity.
    + exists rest. cbn. now rewrite <- IH.
  - exists rest. cbn. now rewrite <- IH.
Qed.

Lemma scores_of_length image reference boxes :
  (List.length (scores_of image reference boxes) <= List.length boxes)%nat.
Proof.
  unfold scores_of. induction boxes as [|b boxes IH]; [reflexivity|].
  cbn. destruct (aligned_face_align image b); cbn; lia.
Qed.

(** The scores the scan sees: none but the last is above the threshold,
    and the scan answers true exactly when the last one is. *)
Lemma scan_boxes_scores image reference boxes g :
  if value (scan_boxes image reference boxes g) then
    exists earlier s,
      recognize_scores (events (scan_boxes image reference boxes g))
      = earlier ++ [s] /\
      Forall (fun x => float_gt x MATCH_THRESHOLD = false) earlier /\
      float_gt s MATCH_THRESHOLD = true
  else
    Forall (fun x => float_gt x MATCH_THRESHOLD = false)
           (recognize_scores (events (scan_boxes image reference boxes g))).
Proof.
  induction boxes as [|b rest IH]; [constructor|].
  cbn [scan_boxes]. rewrite value_bind, events_bind. cbn.
  destruct (aligned_face_align image b) as [aligned|]; [|exact IH].
  cbn.
  destruct (float_gt (fr_recognize_face aligned reference) MATCH_THRESHOLD)
    eqn:Hs.
  - cbn. exists [], (fr_recognize_face aligned reference).
    split; [reflexivity|]. split; [constructor | exact Hs].
  - destruct (value (scan_boxes image reference rest g)).
    + destruct IH as (earlier & s & E & Hall & Hlast).
      exists (fr_recognize_face aligned reference :: earlier), s.
      unfold recognize_scores in *. rewrite E.
      split; [reflexivity|]. split; [constructor; assumption | exact Hlast].
    + constructor; assumption.
Qed.

(** X4.  The calls of the scan, with the reference loaded, a face
    detected and the buffer allocated: the aligner is called on a prefix
    of the detected boxes, each once and in detection order; the scorer
    is called on exactly those of them that aligned, in the same order;
    access is granted exactly when the last score returned is above the
    threshold [0.6f], and no score before the last is above it. *)
Theorem scan_calls e g image reference boxes buffer :
  cycle_image e = Some image ->
  authorized_face g = Some reference ->
  face_detect image = Some boxes ->
  boxes <> [] ->
  aligned_face_alloc e = Some buffer ->
  aligned_boxes (events (loop e g)) = scanned image reference boxes /\
  recognize_scores (events (loop e g))
  = scores_of image reference (scanned image reference boxes) /\
  (exists rest, boxes = scanned image reference boxes ++ rest) /\
  (List.length (recognize_scores (events (loop e g)))
   <= List.length (aligned_boxes (events (loop e g)))
   <= List.length boxes)%nat /\
  (decision (value (loop e g)) = Some Granted <->
   exists earlier s,
     recognize_scores (events (loop e g)) = earlier ++ [s] /\
     float_gt s MATCH_THRESHOLD = true) /\
  Forall (fun x => float_gt x MATCH_THRESHOLD = false)
         (removelast (recognize_scores (events (loop e g)))).
Proof.
  intros Himage Href Hdet Hne Hbuf.
  destruct (loop_reading e g image Himage) as (Ra & Rs & _).
  rewrite (loop_decides e g image Himage), Ra, Rs, Hdet.
  destruct (loop_recognize_scan e image boxes g reference buffer
              Href Hbuf Hne) as (Hv & Ha & Hs).
  rewrite Hv, Ha, Hs.
  destruct (scan_boxes_scanned image reference boxes g) as [Ea Es].
  pose proof (scan_boxes_scores image reference boxes g) as Hscores.
  rewrite Ea, Es in *.
  destruct (scanned_prefix image reference boxes) as [rest Hrest].
  split; [reflexivity|]. split; [reflexivity|].
  split; [exists rest; exact Hrest|].
  split.
  { split; [apply scores_of_length|].
    rewrite Hrest at 2. rewrite length_app. lia. }
  destruct (value (scan_boxes image reference boxes g)).
  - destruct Hscores as (earlier & s & E & Hall & Hlast). rewrite E.
    split.
    + split; [|reflexivity]. intros _. exists earlier, s.
      split; [reflexivity | exact Hlast].
    + rewrite removelast_last. exact Hall.
  - split.
    + split; [discriminate|]. intros (earlier & s & E & Hlast).
      rewrite E in Hscores. apply Forall_app in Hscores.
      destruct Hscores as [_ Hs']. inversion Hs' as [|? ? Hle _]. subst.
      congruence.
    + clear -Hscores.
      induction Hscores as [|x l Hx Hl IH]; [constructor|].
      destruct l; [constructor|]. cbn [removelast].
      constructor; [exact Hx | exact IH].
Qed.

(** ** What [loadAuthorizedFace] releases and logs *)

(** X2.  What [loadAuthorizedFace] releases, on every path: the file is
    closed once when it was opened; the read buffer is freed once when
    it was allocated; the raster is freed once when it was allocated;
    the box array is freed as a whole or not at all; the aligned face is
    never freed when the call answers true, and freed when it was
    allocated and the call answers false.  The attempt counter is not
    touched. *)
Theorem loadAuthorizedFace_releases b g :
  count is_file_close (events (loadAuthorizedFace b g))
  = match SD_open b with Some _ => 1 | None => 0 end%nat /\
  count is_free (events (loadAuthorizedFace b g))
  = match SD_open b with
    | Some _ => if boot_malloc b then 1 else 0
    | None => 0
    end%nat /\
  count is_matrix_free (events (loadAuthorizedFace b g))
  = match SD_open b, boot_dl_matrix3du_alloc b with
    | Some _, Some _ => if boot_malloc b then 1 else 0
    | _, _ => 0
    end%nat /\
  (freed_members (events (loadAuthorizedFace b g)) = [] \/
   freed_members (events (loadAuthorizedFace b g))
   = ["score"; "box"; "landmark"; ""]) /\
  count is_aligned_face_free (events (loadAuthorizedFace b g))
  = (if value (loadAuthorizedFace b g) then 0
     else match boot_aligned_face_alloc b with
          | Some _ =>
              count is_aligned_face_alloc (events (loadAuthorizedFace b g))
          | None => 0
          end)%nat /\
  attemptCount (final (loadAuthorizedFace b g)) = attemptCount g.
Proof.
  unfold loadAuthorizedFace.
  destruct (boot_aligned_face_alloc b) as [buffer|];
    destruct (SD_open b) as [file|]; cbn;
    try (repeat split; try reflexivity; left; reflexivity);
    destruct (boot_malloc b); cbn;
    try (destruct (boot_dl_matrix3du_alloc b);
         repeat split; try reflexivity; left; reflexivity);
    destruct (boot_dl_matrix3du_alloc b) as [raster|]; cbn;
    try (repeat split; try reflexivity; left; reflexivity);
    destruct (fmt2rgb888 (file_bytes file) (file_size file) PIXFORMAT_JPEG)
      as [image|]; cbn;
    try (repeat split; try reflexivity; left; reflexivity);
    destruct (face_detect image) as [[|box0 rest]|]; cbn;
    try (repeat split; try reflexivity;
         first [left; reflexivity | right; reflexivity]);
    destruct (aligned_face_align image box0) as [face|]; cbn;
    repeat split; try reflexivity; right; reflexivity.
Qed.

(** X3.  [loadAuthorizedFace] logs exactly one line: "Authorized face
    loaded" exactly when it answers true, one of the six failure lines
    exactly when it answers false, and "Failed to open
    /faces/user1.jpg" exactly when the file did not open. *)
Theorem loadAuthorizedFace_log b g :
  exists line,
    serial_lines (events (loadAuthorizedFace b g)) = [line] /\
    (value (loadAuthorizedFace b g) = true <->
     line = "Authorized face loaded") /\
    (value (loadAuthorizedFace b g) = false <->
     In line ["Failed to open /faces/user1.jpg"; "Memory allocation failed";
              "Image allocation failed"; "JPEG decode failed";
              "No face detected in user1.jpg"; "Face alignment failed"]) /\
    (SD_open b = None <-> line = "Failed to open /faces/user1.jpg").
Proof.
  unfold loadAuthorizedFace.
  destruct (SD_open b) as [file|]; cbn.
  2:{ eexists. split; [reflexivity|].
      split; [split; discriminate|].
      split; [split; [intros _; cbn; tauto | reflexivity] | tauto]. }
  assert (Hno : forall line : string,
            line <> "Failed to open /faces/user1.jpg" ->
            (Some file = None <-> line = "Failed to open /faces/user1.jpg")).
  { intros line Hl. split; [discriminate | contradiction]. }
  destruct (boot_malloc b); cbn;
    [|eexists; (split; [reflexivity|]); (split; [split; discriminate|]);
      split; [split; [intros _; cbn; tauto | reflexivity]
             |apply Hno; discriminate]].
  destruct (boot_dl_matrix3du_alloc b) as [raster|]; cbn;
    [|eexists; (split; [reflexivity|]); (split; [split; discriminate|]);
      split; [split; [intros _; cbn; tauto | reflexivity]
             |apply Hno; discriminate]].
  destruct (fmt2rgb888 (file_bytes file) (file_size file) PIXFORMAT_JPEG)
    as [image|]; cbn;
    [|eexists; (split; [reflexivity|]); (split; [split; discriminate|]);
      split; [split; [intros _; cbn; tauto | reflexivity]
             |apply Hno; discriminate]].
  destruct (face_detect image) as [[|box0 rest]|]; cbn;
    [eexists; (split; [reflexivity|]); (split; [split; discriminate|]);
     split; [split; [intros _; cbn; tauto | reflexivity]
            |apply Hno; discriminate]
    |
    |eexists; (split; [reflexivity|]); (split; [split; discriminate|]);
     split; [split; [intros _; cbn; tauto | reflexivity]
            |apply Hno; discriminate]].
  destruct (boot_aligned_face_alloc b) as [buffer|]; cbn;
    [|eexists; (split; [reflexivity|]); (split; [split; discriminate|]);
      split; [split; [intros _; cbn; tauto | reflexivity]
             |apply Hno; discriminate]].
  destruct (aligned_face_align image box0) as [face|]; cbn.
  - eexists. split; [reflexivity|].
    split; [split; reflexivity|].
    split; [|apply Hno; discriminate].
    split; [discriminate|]. cbn. intuition discriminate.
  - eexists. split; [reflexivity|]. split; [split; discriminate|].
    split; [split; [intros _; cbn; tauto | reflexivity]
           |apply Hno; discriminate].
Qed.
(** ** [setup] *)

(** The waiting loop, entered at its turn [i]: with the clock running it
    is left within 81 turns. *)
Lemma wifi_wait_from e fuel i :
  clock_runs e ->
  (i <= 80)%nat ->
  (81 <= fuel + i)%nat ->
  exists polls t,
    wifi_wait e (millis_at e 0) fuel i = Some (polls, t) /\
    (i < polls <= 81)%nat /\
    setup_delays t = repeat 250 (polls - 1 - i) /\
    (forall j, (i <= j < polls - 1)%nat ->
               WiFi_status_at e j <> WL_CONNECTED) /\
    (WiFi_status_at e (polls - 1) = WL_CONNECTED \/
     20000 <= ulong_sub (millis_at e polls) (millis_at e 0)).
Proof.
  intros Hclock. revert i.
  induction fuel as [|fuel IH]; intros i Hi Hfuel; [lia|].
  cbn [wifi_wait].
  destruct (wl_status_eqb (WiFi_status_at e i) WL_CONNECTED) eqn:Hst;
    cbn [negb].
  - apply wl_status_eqb_eq in Hst.
    exists (S i), [S_WiFi_status (WiFi_status_at e i)].
    split; [reflexivity|]. split; [lia|].
    split; [now replace (S i - 1 - i)%nat with 0%nat by lia|].
    split; [intros j Hj; lia|].
    left. now replace (S i - 1)%nat with i by lia.
  - assert (Hnot : WiFi_status_at e i <> WL_CONNECTED).
    { intros E. apply wl_status_eqb_eq in E. congruence. }
    destruct (Z.ltb_spec (ulong_sub (millis_at e (S i)) (millis_at e 0)) 20000)
      as [Hlt|Hge].
    + pose proof (Hclock i Hi) as Hrun.
      assert (Hi' : (S i <= 80)%nat) by lia.
      destruct (IH (S i) Hi' ltac:(lia))
        as (polls & t & E & Hp & Hd & Hs & Hexit).
      rewrite E. eexists polls, _. split; [reflexivity|].
      split; [lia|]. split.
      * unfold setup_delays in *. cbn [flat_map app]. rewrite Hd.
        replace (polls - 1 - i)%nat with (S (polls - 1 - S i)) by lia.
        reflexivity.
      * split; [|exact Hexit].
        intros j Hj. destruct (Nat.eq_dec j i) as [->|Hne]; [exact Hnot|].
        apply Hs. lia.
    + eexists (S i), _. split; [reflexivity|]. split; [lia|].
      split; [now replace (S i - 1 - i)%nat with 0%nat by lia|].
      split; [intros j Hj; lia|]. right. exact Hge.
Qed.

Lemma wifi_wait_more_fuel e start fuel extra i r :
  wifi_wait e start fuel i = Some r ->
  wifi_wait e start (fuel + extra) i = Some r.
Proof.
  revert i r. induction fuel as [|fuel IH]; intros i r; [discriminate|].
  cbn [wifi_wait Nat.add].
  destruct (negb (wl_status_eqb (WiFi_status_at e i) WL_CONNECTED));
    [|trivial].
  destruct (ulong_sub (millis_at e (S i)) start <? 20000); [|trivial].
  destruct (wifi_wait e start fuel (S i)) as [[polls t]|] eqn:E;
    [|discriminate].
  rewrite (IH _ _ E). trivial.
Qed.

(** X15.  With the clock running, the wait for WiFi of lines 127-130 is
    over after at most 81 tests of its condition, whatever the fuel
    above that: it holds for 250 ms between two tests, at most 80
    times; WiFi was not connected at any test but the last; and it ends
    because WiFi is connected or because 20000 ms have passed. *)
Theorem wifi_wait_bounded e fuel :
  clock_runs e ->
  (81 <= fuel)%nat ->
  exists polls t,
    wifi_wait e (millis_at e 0) fuel 0 = Some (polls, t) /\
    wifi_wait e (millis_at e 0) 81 0 = Some (polls, t) /\
    (1 <= polls <= 81)%nat /\
    setup_delays t = repeat 250 (polls - 1) /\
    (forall j, (j < polls - 1)%nat -> WiFi_status_at e j <> WL_CONNECTED) /\
    (WiFi_status_at e (polls - 1) = WL_CONNECTED \/
     20000 <= ulong_sub (millis_at e polls) (millis_at e 0)).
Proof.
  intros Hclock Hfuel.
  destruct (wifi_wait_from e 81 0 Hclock ltac:(lia) ltac:(lia))
    as (polls & t & E & Hp & Hd & Hs & Hexit).
  exists polls, t.
  split.
  { replace fuel with (81 + (fuel - 81))%nat by lia.
    now apply wifi_wait_more_fuel. }
  split; [exact E|]. split; [lia|].
  split; [now rewrite Nat.sub_0_r in Hd|].
  split; [|exact Hexit]. intros j Hj. apply Hs. lia.
Qed.


(** [loadAuthorizedFace] neither waits nor writes on the display. *)
Lemma loadAuthorizedFace_silent b g :
  setup_delays (map S_event (events (loadAuthorizedFace b g))) = [] /\
  setup_lcd_prints (map S_event (events (loadAuthorizedFace b g))) = [].
Proof.
  unfold loadAuthorizedFace.
  destruct (SD_open b) as [file|]; cbn; [|split; reflexivity].
  destruct (boot_malloc b); cbn; [|split; reflexivity].
  destruct (boot_dl_matrix3du_alloc b) as [raster|]; cbn;
    [|split; reflexivity].
  destruct (fmt2rgb888 (file_bytes file) (file_size file) PIXFORMAT_JPEG)
    as [image|]; cbn; [|split; reflexivity].
  destruct (face_detect image) as [[|box0 rest]|]; cbn;
    try (split; reflexivity).
  destruct (boot_aligned_face_alloc b) as [buffer|]; cbn;
    [|split; reflexivity].
  destruct (aligned_face_align image box0) as [face|]; cbn;
    split; reflexivity.
Qed.

Lemma wifi_wait_display e start fuel i polls t :
  wifi_wait e start fuel i = Some (polls, t) ->
  setup_lcd_prints t = [].
Proof.
  revert i polls t. induction fuel as [|fuel IH]; intros i polls t;
    [discriminate|].
  cbn [wifi_wait].
  destruct (negb (wl_status_eqb (WiFi_status_at e i) WL_CONNECTED));
    [|intros E; injection E as <- <-; reflexivity].
  destruct (ulong_sub (millis_at e (S i)) start <? 20000);
    [|intros E; injection E as <- <-; reflexivity].
  destruct (wifi_wait e start fuel (S i)) as [[polls' t']|] eqn:E;
    [|discriminate].
  intros E'. injection E' as <- <-. cbn. exact (IH _ _ _ E).
Qed.

(** X17.  What [setup] shows when it returns, in order:
    "Initializing...", "SD Error!" when the card reader failed, "WiFi
    Connected" or "WiFi Timeout" by the WiFi state read after the wait,
    "Camera Error!" when the camera did not start, "No Face Loaded!"
    when enrollment answered false, and the prompt. *)
Theorem setup_display e fuel g t :
  setup e fuel = Some (g, t) ->
  exists polls waiting,
    wifi_wait e (millis_at e 0) fuel 0 = Some (polls, waiting) /\
    setup_lcd_prints t
    = ["Initializing..."]
      ++ (if SD_begin e then [] else ["SD Error!"])
      ++ [if wl_status_eqb (WiFi_status_at e polls) WL_CONNECTED
          then "WiFi Connected" else "WiFi Timeout"]
      ++ (if esp_camera_init e =? ESP_OK then [] else ["Camera Error!"])
      ++ (if value (loadAuthorizedFace (card e) initial_globals)
          then [] else ["No Face Loaded!"])
      ++ ["Present your face"; "to authorize"].
Proof.
  unfold setup.
  destruct (wifi_wait e (millis_at e 0) fuel 0) as [[polls waiting]|] eqn:E;
    [|discriminate].
  intros H.
  pose proof (f_equal (fun o : option (globals * list setup_event) =>
                         match o with
                         | Some p => snd p
                         | None => []
                         end) H) as Ht.
  cbv beta iota zeta delta [snd] in Ht. subst t. clear H.
  exists polls, waiting. split; [reflexivity|].
  destruct (loadAuthorizedFace_silent (card e) initial_globals) as [_ Hsil].
  pose proof (wifi_wait_display e _ _ _ _ _ E) as Hwait.
  unfold setup_lcd_prints in *. rewrite !flat_map_app, Hsil, Hwait.
  unfold setup_start, setup_sd, setup_wifi_begin, setup_wifi_report,
    setup_camera, setup_no_face, setup_prompt.
  destruct (SD_begin e),
    (wl_status_eqb (WiFi_status_at e polls) WL_CONNECTED),
    (esp_camera_init e =? ESP_OK),
    (value (loadAuthorizedFace (card e) initial_globals)); reflexivity.
Qed.

End Further.

(** * Further runs on the bench *)

Lemma skipped_pass_is_inert_witness :
  esp_camera_fb_get bench_no_frame = None /\
  final (loop bench_no_frame (bench_enrolled 2)) = bench_enrolled 2 /\
  serial_lines (events (loop bench_no_frame (bench_enrolled 2)))
  = ["Camera capture failed"].
Proof.
  split; [reflexivity|].
  destruct (skipped_pass_is_inert bench_no_frame (bench_enrolled 2)
              (or_introl eq_refl))
    as (Hf & _ & _ & _ & _ & _ & _ & _ & Hl).
  split; [exact Hf | exact Hl].
Defined.

Lemma telemetry_request_when_online_witness :
  let e := bench_cycle [7] true true WL_CONNECTED in
  let g := bench_enrolled 2 in
  WiFi_status e = WL_CONNECTED /\
  decision (value (loop e g)) = Some Denied /\
  http_requests (events (loop e g))
  = [{| api_key := THINGSPEAK_API_KEY;
        field1 := dummyLat;
        field2 := dummyLng;
        field3 := Z.of_nat (alerts (events (loop e g)));
        field4 := 0 |}].
Proof.
  intros e g.
  assert (Hwifi : WiFi_status e = WL_CONNECTED) by reflexivity.
  assert (Hd : decision (value (loop e g)) = Some Denied)
    by (vm_compute; reflexivity).
  split; [exact Hwifi|]. split; [exact Hd|].
  apply (telemetry_request_when_online e g Denied Hwifi Hd).
Defined.

Lemma alert_exactly_at_third_denial_witness :
  let e := bench_cycle [7] true true WL_CONNECTED in
  let g := bench_enrolled 2 in
  0 <= attemptCount g < MAX_ATTEMPTS /\
  alerts (events (loop e g)) = 1%nat /\
  attemptCount (final (loop e g)) = 0.
Proof.
  intros e g.
  assert (Hrange : 0 <= attemptCount g < MAX_ATTEMPTS)
    by (vm_compute; split; [discriminate | reflexivity]).
  split; [exact Hrange|].
  destruct (alert_exactly_at_third_denial e g Hrange) as (Hiff & _ & Hzero).
  assert (Ha : alerts (events (loop e g)) = 1%nat).
  { apply Hiff. split; vm_compute; reflexivity. }
  split; [exact Ha | exact (Hzero Ha)].
Defined.

Lemma denials_count_modulo_witness :
  let e := bench_cycle [7] true true WL_CONNECTED in
  let es := [e; bench_no_frame; e; e; e] in
  let g := bench_enrolled 0 in
  0 <= attemptCount g < MAX_ATTEMPTS /\
  granted_passes (fst (run_cycles es g)) = 0%nat /\
  denied_passes (fst (run_cycles es g)) = 4%nat /\
  attemptCount (snd (run_cycles es g)) = 4 mod MAX_ATTEMPTS /\
  Z.of_nat (alerts_sent (fst (run_cycles es g))) = 4 / MAX_ATTEMPTS.
Proof.
  intros e es g.
  assert (Hrange : 0 <= attemptCount g < MAX_ATTEMPTS)
    by (vm_compute; split; [discriminate | reflexivity]).
  assert (Hnone : granted_passes (fst (run_cycles es g)) = 0%nat)
    by (vm_compute; reflexivity).
  assert (Hfour : denied_passes (fst (run_cycles es g)) = 4%nat)
    by (vm_compute; reflexivity).
  split; [exact Hrange|]. split; [exact Hnone|]. split; [exact Hfour|].
  pose proof (denials_count_modulo es g Hrange Hnone) as H.
  rewrite Hfour in H. exact H.
Defined.

Lemma granted_clears_lockout_witness :
  let e := bench_cycle [100] true true WL_CONNECTED in
  let e' := bench_cycle [7] true true WL_CONNECTED in
  let g := bench_enrolled 2 in
  decision (value (loop e g)) = Some Granted /\
  alerts (events (loop e' (final (loop e' (final (loop e g)))))) = 0%nat.
Proof.
  intros e e' g.
  assert (Hg : decision (value (loop e g)) = Some Granted)
    by (vm_compute; reflexivity).
  split; [exact Hg|].
  apply (granted_clears_lockout e e' e' g Hg).
Defined.

Lemma scan_calls_witness :
  let pixels := [-3; 9227469; 15099494; 100] in
  let e := bench_cycle pixels true true WL_CONNECTED in
  let g := bench_enrolled 0 in
  cycle_image e = Some pixels /\
  aligned_boxes (events (loop e g)) = [-3; 9227469; 15099494] /\
  recognize_scores (events (loop e g)) = [score_0_55; score_0_9].
Proof.
  intros pixels e g.
  assert (Himage : cycle_image e = Some pixels)
    by (vm_compute; reflexivity).
  assert (Hdet : face_detect pixels = Some pixels)
    by (vm_compute; reflexivity).
  assert (Hne : pixels <> []) by discriminate.
  split; [exact Himage|].
  destruct (scan_calls e g pixels 100 pixels 0
              Himage eq_refl Hdet Hne eq_refl) as (Ha & Hs & _).
  split; [exact Ha | exact Hs].
Defined.

(** The clock of the bench runs. *)
Lemma bench_clock_runs sd_ok connected_at camera_err stored :
  clock_runs (bench_setup sd_ok connected_at camera_err stored).
Proof.
  intros k Hk. cbn [millis_at bench_setup Nat.pred]. unfold ulong_sub.
  replace (100 + 250 * Z.of_nat k - (100 + 250 * Z.of_nat 0))
    with (250 * Z.of_nat k) by lia.
  rewrite Z.mod_small; lia.
Qed.

Lemma wifi_wait_bounded_witness :
  let e := bench_setup true 3 0 (Some [100]) in
  clock_runs e /\
  (81 <= 100)%nat /\
  exists t,
    wifi_wait e (millis_at e 0) 100 0 = Some (4%nat, t) /\
    setup_delays t = [250; 250; 250].
Proof.
  intros e.
  assert (Hclock : clock_runs e) by apply bench_clock_runs.
  assert (Hfuel : (81 <= 100)%nat) by lia.
  split; [exact Hclock|]. split; [exact Hfuel|].
  destruct (wifi_wait_bounded e 100 Hclock Hfuel)
    as (polls & t & E & E81 & _ & Hd & _).
  assert (Hpolls : polls = 4%nat).
  { vm_compute in E81. injection E81 as <- _. reflexivity. }
  subst polls. exists t. split; [exact E | exact Hd].
Defined.


Lemma setup_display_witness :
  let e := bench_setup false 2 261 None in
  exists g t,
    setup e 81 = Some (g, t) /\
    setup_lcd_prints t
    = ["Initializing..."; "SD Error!"; "WiFi Connected"; "Camera Error!";
       "No Face Loaded!"; "Present your face"; "to authorize"].
Proof.
  intros e.
  remember (setup e 81) as r eqn:E. symmetry in E.
  destruct r as [[g t]|]; [|vm_compute in E; discriminate].
  exists g, t. split; [reflexivity|].
  destruct (setup_display e 81 g t E) as (polls & waiting & Ew & Hd).
  assert (Hpolls : polls = 3%nat).
  { vm_compute in Ew. injection Ew as <- _. reflexivity. }
  subst polls. rewrite Hd. vm_compute. reflexivity.
Defined.
